(** * Lulu UAE sales dashboard: the loader, the filter step and the aggregations

    A shallow embedding of [Lulu_Dashboard/app.py].  The script is a chain of
    pandas calls over one table of order lines; each pandas call used by the
    script is given here as a function on lists of rows, following what the
    call does on a [float64] column (null is NaN) and on an [object] column
    of text (null is a missing value).

    Conventions: a numeric column is [float64], the type pandas gives a
    column that holds a decimal or a null; [age] is a column of integers,
    which the slider bounds are compared with; a categorical column holds
    text.  The functions keep the names of the script's variables and of
    the pandas methods they stand for. *)

From Stdlib Require Import Floats ZArith List Sorted Permutation.
From stdpp Require Import gmap strings list.

Set Warnings "-inexact-float".
Local Open Scope Z_scope.

(** ** Cells *)

(** A [float64] cell.  pandas stores a missing number as NaN. *)
Abbreviation float64 := PrimFloat.float.

Definition isna (v : float64) : bool := PrimFloat.is_nan v.
Definition notna (v : float64) : bool := negb (isna v).
Definition NaN : float64 := PrimFloat.nan.

(** A [datetime64] cell: the civil date and the time of day.  [NaT] is the
    missing value, written [None] in a column of [option Timestamp]. *)
Record Timestamp := mkTimestamp {
  ts_year : Z; ts_month : Z; ts_day : Z;
  ts_hour : Z; ts_minute : Z; ts_second : Z
}.

(** ** The table *)

(** One order line.  The first block is the columns of the CSV file, the
    second the three columns [load_data] derives.  [loyalty_member] is the
    0/1 flag as the number its mean is taken of. *)
Record Row := mkRow {
  order_id : option string;
  order_datetime : option Timestamp;
  order_month : option string;
  department : option string;
  category : option string;
  brand : option string;
  sku_id : option string;
  city : option string;
  city_zone : option string;
  channel : option string;
  nationality_group : option string;
  age : option Z;
  loyalty_member : float64;
  quantity : float64;
  line_value_aed : float64;
  basket_size_items : float64;
  (* derived *)
  order_month_dt : option Timestamp;
  day_of_week : option string;
  hour_of_day : option Z
}.

Definition DataFrame := list Row.

(** ** Sidebar filters (app.py, lines 51-61) *)

(** The six values the sidebar widgets hand to the filter step.  A select
    box returns the text ["All"] when no value is chosen; the age slider
    always returns two integers. *)
Record FilterSpec := mkFilter {
  sel_department : string;
  sel_category : string;
  sel_nationality : string;
  age_min : Z;
  age_max : Z;
  sel_month : string
}.

Definition ALL : string := "All".

(** [df[col] == v]: a null cell compares unequal to every text. *)
Definition col_eq (col : Row -> option string) (v : string) (r : Row) : bool :=
  match col r with
  | Some s => String.eqb s v
  | None => false
  end.

(** [df[col] != v] is the negation, so a null cell satisfies it. *)
Definition col_ne (col : Row -> option string) (v : string) (r : Row) : bool :=
  negb (col_eq col v r).

(** [(df['age'] >= age_min) & (df['age'] <= age_max)]: both comparisons are
    false on a null age. *)
Definition age_between (lo hi : Z) (r : Row) : bool :=
  match age r with
  | Some a => (lo <=? a) && (a <=? hi)
  | None => false
  end.

(** [df[mask]]: boolean indexing keeps the rows whose mask entry is true. *)
Definition getitem_mask (mask : Row -> bool) (df : DataFrame) : DataFrame :=
  List.filter mask df.

(** The filter block, statement by statement. *)
Definition apply_filters (df : DataFrame) (f : FilterSpec) : DataFrame :=
  let df_filtered := df in
  let df_filtered :=
    if negb (String.eqb (sel_department f) ALL)
    then getitem_mask (col_eq department (sel_department f)) df_filtered
    else df_filtered in
  let df_filtered :=
    if negb (String.eqb (sel_category f) ALL)
    then getitem_mask (col_eq category (sel_category f)) df_filtered
    else df_filtered in
  let df_filtered :=
    if negb (String.eqb (sel_nationality f) ALL)
    then getitem_mask (col_eq nationality_group (sel_nationality f)) df_filtered
    else df_filtered in
  let df_filtered :=
    getitem_mask (age_between (age_min f) (age_max f)) df_filtered in
  let df_filtered :=
    if negb (String.eqb (sel_month f) ALL)
    then getitem_mask (col_eq order_month (sel_month f)) df_filtered
    else df_filtered in
  df_filtered.

(** The filter contract in the words of the specification: a select box is
    an active predicate unless it holds ["All"]; the age bounds are always
    active; a row is kept when every active predicate holds. *)
Definition active (sel : string) : bool := negb (String.eqb sel ALL).

Definition satisfies (f : FilterSpec) (r : Row) : bool :=
  (negb (active (sel_department f)) || col_eq department (sel_department f) r)
  && (negb (active (sel_category f)) || col_eq category (sel_category f) r)
  && (negb (active (sel_nationality f))
      || col_eq nationality_group (sel_nationality f) r)
  && age_between (age_min f) (age_max f) r
  && (negb (active (sel_month f)) || col_eq order_month (sel_month f) r).

(** The same contract as a proposition about the row. *)
Definition exact_match (sel : string) (cell : option string) : Prop :=
  sel <> ALL -> cell = Some sel.

Definition Satisfies (f : FilterSpec) (r : Row) : Prop :=
  exact_match (sel_department f) (department r)
  /\ exact_match (sel_category f) (category r)
  /\ exact_match (sel_nationality f) (nationality_group r)
  /\ (exists a, age r = Some a /\ age_min f <= a <= age_max f)
  /\ exact_match (sel_month f) (order_month r).

(** ** The pandas calls the aggregations use *)

(** *** Sums

    The sums of the script are computed by two library routines, written
    here over any carrier of numbers so that the same routine can be run on
    [float64] cells and on exact amounts.  A carrier has a zero, the zero
    with the sign bit set (the running value an addition leaves unchanged),
    addition, subtraction and a test for the null. *)
Record Arith (A : Type) := mkArith {
  zero : A;
  neg_zero : A;
  add : A -> A -> A;
  sub : A -> A -> A;
  null : A -> bool
}.
Arguments zero {A} _.
Arguments neg_zero {A} _.
Arguments add {A} _ _ _.
Arguments sub {A} _ _ _.
Arguments null {A} _ _.

(** The cells of a [float64] column. *)
Definition float64_arith : Arith float64 :=
  {| zero := 0%float; neg_zero := (-0)%float;
     add := PrimFloat.add; sub := PrimFloat.sub; null := isna |}.

(** Exact amounts, in a whole number of the smallest unit, with a null. *)
Definition exact_arith : Arith (option Z) :=
  {| zero := Some 0; neg_zero := Some 0;
     add := fun x y => a ← x; b ← y; Some (a + b);
     sub := fun x y => a ← x; b ← y; Some (a - b);
     null := fun x => bool_decide (x = None) |}.

Section Summation.
Context {A : Type} (ar : Arith A).
Local Notation "x ⊕ y" := (add ar x y) (at level 50, left associativity).
Local Notation "x ⊖ y" := (sub ar x y) (at level 50, left associativity).

(** The sum of a contiguous [float64] array as the numerical library
    takes it (pairwise summation).  Fewer than eight values are added one
    after the other. *)
Definition sum_short (l : list A) : A := fold_left (add ar) l (neg_zero ar).

(** Up to 128 values go through eight running sums, the value at position
    [i] into the sum [i mod 8]; the eight are then added in pairs, and the
    values left over after the last full group of eight are added one after
    the other. *)
Fixpoint sum_unrolled (r : A * A * A * A * A * A * A * A) (l : list A) : A :=
  let '(r0, r1, r2, r3, r4, r5, r6, r7) := r in
  match l with
  | a0 :: a1 :: a2 :: a3 :: a4 :: a5 :: a6 :: a7 :: l' =>
      sum_unrolled (r0 ⊕ a0, r1 ⊕ a1, r2 ⊕ a2, r3 ⊕ a3,
                    r4 ⊕ a4, r5 ⊕ a5, r6 ⊕ a6, r7 ⊕ a7) l'
  | rest =>
      fold_left (add ar) rest
        (((r0 ⊕ r1) ⊕ (r2 ⊕ r3)) ⊕ ((r4 ⊕ r5) ⊕ (r6 ⊕ r7)))
  end.

Definition sum_block (l : list A) : A :=
  match l with
  | a0 :: a1 :: a2 :: a3 :: a4 :: a5 :: a6 :: a7 :: l' =>
      sum_unrolled (a0, a1, a2, a3, a4, a5, a6, a7) l'
  | _ => sum_short l
  end.

(** More than 128 values are split near the middle, at a multiple of
    eight, and the sums of the two halves are added.  Each half is shorter
    than the whole, so [fuel] as large as the length is never used up
    ([pairwise_sum_fuel] below). *)
Fixpoint pairwise_sum (fuel : nat) (l : list A) : A :=
  let n := length l in
  if (n <=? 128)%nat then sum_block l
  else
    match fuel with
    | O => sum_block l
    | S fuel' =>
        let n2 := (n / 2 - (n / 2) mod 8)%nat in
        pairwise_sum fuel' (take n2 l) ⊕ pairwise_sum fuel' (drop n2 l)
    end.

(** [ndarray.sum()]: zero on an empty array, otherwise the pairwise sum
    added to the running value the reduction starts from. *)
Definition ndarray_sum (l : list A) : A :=
  match l with
  | [] => zero ar
  | _ :: _ => neg_zero ar ⊕ pairwise_sum (length l) l
  end.

(** [Series.sum()] with the default [skipna=True]: each null is replaced
    by zero, where it stands, and the array is summed. *)
Definition nansum (vs : list A) : A :=
  ndarray_sum (map (fun v => if null ar v then zero ar else v) vs).

(** The sum of one group in [groupby(...).sum()]: the non-null values of
    the group are added in row order with a running compensation for the
    rounding of each addition (Kahan summation); a compensation that is
    not a number is reset to zero. *)
Definition kahan_step (st : A * A) (val : A) : A * A :=
  let '(sumx, compensation) := st in
  if null ar val then st
  else
    let y := val ⊖ compensation in
    let t := sumx ⊕ y in
    let c := t ⊖ sumx ⊖ y in
    (t, if null ar c then zero ar else c).

Definition group_sum (vs : list A) : A :=
  fst (fold_left kahan_step vs (zero ar, zero ar)).

End Summation.

(** [Series.sum()] on a [float64] column. *)
Definition Series_sum (vs : list float64) : float64 := nansum float64_arith vs.

(** [Series.dropna()]. *)
Definition dropna (vs : list float64) : list float64 := List.filter notna vs.

Definition float_of_nat (n : nat) : float64 :=
  PrimFloat.of_uint63 (Uint63.of_Z (Z.of_nat n)).

(** [Series.mean()]: the sum over the count of the non-null values, and
    NaN when there is none. *)
Definition Series_mean (vs : list float64) : float64 :=
  let count := length (dropna vs) in
  if Nat.eqb count 0 then NaN
  else (Series_sum vs / float_of_nat count)%float.

(** [Series.nunique()]: the number of distinct non-null values. *)
Definition nunique (vs : list (option string)) : nat :=
  length (remove_dups (omap id vs)).

(** The group keys of [groupby(...)], which sorts them: each distinct key
    once, in ascending order. *)
Fixpoint insert_key {K} `{EqDecision K} (ltb : K -> K -> bool) (k : K)
    (ks : list K) : list K :=
  match ks with
  | [] => [k]
  | k' :: ks' =>
      if decide (k = k') then ks
      else if ltb k k' then k :: ks
      else k' :: insert_key ltb k ks'
  end.

Definition sorted_keys {K} `{EqDecision K} (ltb : K -> K -> bool)
    (ks : list K) : list K :=
  fold_right (insert_key ltb) [] ks.

(** The ascending order of text keys. *)
Definition ascending (a b : string) : Prop := String.ltb a b = true.

(** The rows of one group, in row order. *)
Definition group_rows {K} `{EqDecision K} (key : Row -> option K) (k : K)
    (df : DataFrame) : DataFrame :=
  List.filter (fun r => bool_decide (key r = Some k)) df.

(** [df.groupby(key)]: one group per distinct key, keys ascending; a row
    whose key is null belongs to no group (the default [dropna=True]). *)
Definition groupby {K} `{EqDecision K} (ltb : K -> K -> bool)
    (key : Row -> option K) (df : DataFrame) : list (K * DataFrame) :=
  map (fun k => (k, group_rows key k df)) (sorted_keys ltb (omap key df)).

(** [df.groupby(key)['line_value_aed'].sum()]. *)
Definition groupby_sum {K} `{EqDecision K} (ltb : K -> K -> bool)
    (key : Row -> option K) (df : DataFrame) : list (K * float64) :=
  map (fun g => (fst g, group_sum float64_arith (map line_value_aed (snd g))))
      (groupby ltb key df).

(** [df.groupby(key)['order_id'].nunique()]. *)
Definition groupby_nunique {K} `{EqDecision K} (ltb : K -> K -> bool)
    (key : Row -> option K) (df : DataFrame) : list (K * nat) :=
  map (fun g => (fst g, nunique (map order_id (snd g))))
      (groupby ltb key df).

(** Reading a series at a label. *)
Fixpoint series_get {V} (label : string) (s : list (string * V)) : option V :=
  match s with
  | [] => None
  | (k, v) :: s' => if String.eqb k label then Some v else series_get label s'
  end.

(** [Series.reindex(labels)] without [fill_value]: the result has exactly
    the given labels in the given order; a label the series does not have
    gets a null value ([None] here). *)
Definition reindex {V} (labels : list string) (s : list (string * V))
    : list (string * option V) :=
  map (fun l => (l, series_get l s)) labels.

(** [.head(n)]. *)
Definition head {A} (n : nat) (l : list A) : list A := take n l.

(** *** Sorting by value *)

(** The position rule of [sort_values(ascending=False)]: [x] may stand
    before [y] when [y] is null (nulls go last) or [y <= x]. *)
Definition precedes (x y : float64) : bool := isna y || (y <=? x)%float.

Definition descending {K} (a b : K * float64) : Prop :=
  precedes (snd a) (snd b) = true.

(** The algorithm behind [sort_values] is chosen by its [kind].  The
    aggregations below take the algorithm as an argument; the one the
    script runs is [quicksort] below. *)
Definition Sorter := forall K : Type, list (K * float64) -> list (K * float64).

(** What every kind guarantees: the rows are reordered, and the values
    descend with the nulls last. *)
Definition sorts_descending (sort : Sorter) : Prop :=
  forall K (s : list (K * float64)),
    Permutation (sort K s) s /\ Sorted descending (sort K s).

(** Two simple algorithms with that guarantee.  The first keeps rows of
    equal value in their input order (as [kind='stable'] does)... *)
Fixpoint insert_before_ties {K} (a : K * float64) (s : list (K * float64))
    : list (K * float64) :=
  match s with
  | [] => [a]
  | b :: s' =>
      if precedes (snd a) (snd b) then a :: s
      else b :: insert_before_ties a s'
  end.

Definition stable_sort : Sorter :=
  fun K s => fold_right insert_before_ties [] s.

(** ... the second puts a row behind the later rows of equal value. *)
Fixpoint insert_after_ties {K} (a : K * float64) (s : list (K * float64))
    : list (K * float64) :=
  match s with
  | [] => [a]
  | b :: s' =>
      if precedes (snd b) (snd a) then b :: insert_after_ties a s'
      else a :: s
  end.

Definition reversing_sort : Sorter :=
  fun K s => fold_right insert_after_ties [] s.

(** *** The default kind

    The script never passes [kind], so [sort_values] sorts with the
    library's [kind='quicksort']: an introsort over the positions of the
    values, written here as a function on the list of entries compared by
    their values with [lt].  A range of more than seventeen entries is
    partitioned around the median of its first, middle and last entry; a
    shorter range is sorted by insertion; a range reached after the depth
    limit is sorted by heapsort.  This is the library's portable routine
    ([aquicksort_] of npysort); a build that replaces it by a vectorised
    sort orders values the same way and may leave equal values in another
    order. *)
Section NumpySort.
Context {T : Type} (lt : T -> T -> bool).

(** The two orders a sorted range is stated in. *)
Definition ascends (x y : T) : Prop := lt y x = false.
Definition descends (x y : T) : Prop := lt x y = false.

(** [x] ties with [v]: neither is less than the other. *)
Definition ties_with (v x : T) : bool := negb (lt x v) && negb (lt v x).

(** Insertion sort of a short range: each entry moves left past the
    entries greater than it.  [racc] is the sorted prefix, its last entry
    first. *)
Fixpoint insert_back (x : T) (racc : list T) : list T :=
  match racc with
  | y :: racc' => if lt x y then y :: insert_back x racc' else x :: racc
  | [] => [x]
  end.

Definition insertion_sort (a : list T) : list T :=
  rev (fold_left (fun racc x => insert_back x racc) a []).

(** The three conditional swaps that put the first, the middle and the
    last entry of a range in order; the middle one is the pivot. *)
Definition median3 (x0 xm xl : T) : T * T * T :=
  let '(x0, xm) := if lt xm x0 then (xm, x0) else (x0, xm) in
  let '(xm, xl) := if lt xl xm then (xl, xm) else (xm, xl) in
  let '(x0, xm) := if lt xm x0 then (xm, x0) else (x0, xm) in
  (x0, xm, xl).

Fixpoint take_while (p : T -> bool) (l : list T) : list T :=
  match l with
  | x :: l' => if p x then x :: take_while p l' else []
  | [] => []
  end.

(** The partition loop.  The range is [L ++ M ++ R] followed by the pivot
    and the last entry: [L] is what the left pointer has passed, [R] what
    the right pointer has passed, [M] lies between the two.  The left
    pointer moves right over the entries less than the pivot ([i] of
    them), the right pointer moves left over the entries greater than it
    ([j] of them); when the pointers have not met the two entries they
    stopped at are exchanged and the loop goes on between them.  The
    result is what stands left of the left pointer and what stands from
    it on.  [M] gets shorter, so its length is fuel enough. *)
Fixpoint hoare (fuel : nat) (vp : T) (L M R : list T) : list T * list T :=
  let i := length (take_while (fun x => lt x vp) M) in
  let j := length (take_while (fun y => lt vp y) (rev M)) in
  match fuel with
  | S fuel' =>
      if (i + j + 2 <=? length M)%nat then
        match drop i M, drop (length M - j - 1) M with
        | x :: _, y :: M4 =>
            hoare fuel' vp (L ++ take i M ++ [y])
                  (take (length M - i - j - 2) (drop (S i) M))
                  (x :: M4 ++ R)
        | _, _ => (L ++ take i M, drop i M ++ R)
        end
      else (L ++ take i M, drop i M ++ R)
  | O => (L ++ take i M, drop i M ++ R)
  end.

(** One partition of a range [a] of positions [0..m]: the median of three
    is taken at positions [0], [m/2] and [m], the pivot is exchanged with
    the entry at [m - 1], the loop runs over the positions between [0]
    and [m - 1], and the pivot is exchanged with the entry the left
    pointer stopped at.  The result is the part below the pivot, the
    pivot and the part above it.  A range of fewer than four entries has
    no partition ([None]); the sort never asks for one. *)
Definition partition (a : list T) : option (list T * T * list T) :=
  match a with
  | [] => None
  | x0 :: t =>
      let m := (length a - 1)%nat in
      let pm := (m / 2)%nat in
      match drop (pm - 1) t with
      | [] => None
      | xm :: t2 =>
          match drop (m - 2 - pm) t2 with
          | [xp; xl] =>
              let '(lo, vp, hi) := median3 x0 xm xl in
              let '(lower, rest) :=
                hoare (length a) vp [lo]
                      (take (pm - 1) t ++ xp :: take (m - 2 - pm) t2) [] in
              Some (lower, vp,
                    match rest with
                    | [] => [hi]
                    | z :: rest' => rest' ++ [z; hi]
                    end)
          | _ => None
          end
      end
  end.

(** Heapsort counts positions from one. *)
Definition get1 (d : T) (k : nat) (a : list T) : T := nth (k - 1) a d.

Definition set1 (k : nat) (x : T) (a : list T) : list T :=
  <[(k - 1)%nat := x]> a.

Definition child (c k : nat) : Prop :=
  c = (2 * k)%nat \/ c = (2 * k + 1)%nat.

(** The entry at [k] is not less than the entry at [c]. *)
Definition dominated (a : list T) (k c : nat) : Prop :=
  forall x y, a !! (k - 1)%nat = Some x -> a !! (c - 1)%nat = Some y ->
              lt x y = false.

(** Every position from [l] on holds an entry not less than its children. *)
Definition heap_from (l : nat) (a : list T) : Prop :=
  forall k c, (l <= k)%nat -> child c k -> dominated a k c.

(** [tmp] sinks from position [i]: while the greater child of the
    position is greater than [tmp] the child moves up and the position
    moves to the child.  The position at least doubles each time, so the
    length of the heap is fuel enough. *)
Fixpoint sift (fuel : nat) (tmp : T) (i : nat) (a : list T) : list T :=
  match fuel with
  | O => set1 i tmp a
  | S fuel' =>
      let n := length a in
      let j := (2 * i)%nat in
      if (j <=? n)%nat then
        let j := if (j <? n)%nat && lt (get1 tmp j a) (get1 tmp (j + 1) a)
                 then (j + 1)%nat else j in
        if lt tmp (get1 tmp j a)
        then sift fuel' tmp j (set1 i (get1 tmp j a) a)
        else set1 i tmp a
      else set1 i tmp a
  end.

(** The heap is built from the middle position down to the first. *)
Definition heapify (a : list T) : list T :=
  fold_left (fun a l => match a !! (l - 1)%nat with
                        | Some tmp => sift (length a) tmp l a
                        | None => a
                        end)
            (rev (seq 1 (length a / 2))) a.

(** The greatest entry of the heap [h] goes in front of the sorted part
    [s]; the last entry of the heap sinks from the first position. *)
Fixpoint extract_max (fuel : nat) (h s : list T) : list T :=
  match fuel with
  | O => h ++ s
  | S fuel' =>
      match h with
      | root :: _ :: _ =>
          let tmp := List.last h root in
          let h' := removelast h in
          extract_max fuel' (sift (length h') tmp 1 h') (root :: s)
      | _ => h ++ s
      end
  end.

Definition aheapsort (a : list T) : list T :=
  extract_max (length a) (heapify a) [].

(** The sort of one range.  The depth counter goes down by one with each
    partition.  Of the two parts the shorter is sorted next, and the
    longer is put on the stack with the counter: a range taken from the
    stack ([popped]) with a counter below zero is sorted by heapsort.
    Each part is shorter than the range, so its length is fuel enough. *)
Fixpoint aquicksort_range (fuel : nat) (popped : bool) (cdepth : Z)
    (a : list T) : list T :=
  if popped && (cdepth <? 0) then aheapsort a
  else if (length a <=? 17)%nat then insertion_sort a
  else
    match fuel, partition a with
    | S fuel', Some (lower, p, upper) =>
        let lower_next := (length lower <? length upper)%nat in
        aquicksort_range fuel' (negb lower_next) (cdepth - 1) lower
        ++ p :: aquicksort_range fuel' lower_next (cdepth - 1) upper
    | _, _ => insertion_sort a
    end.

(** The depth limit is twice the position of the highest bit of the
    number of entries. *)
Definition aquicksort (a : list T) : list T :=
  aquicksort_range (length a) true (2 * Z.log2 (Z.of_nat (length a))) a.

End NumpySort.

(** The comparison of two [float64] values in the sort: a null is greater
    than every number. *)
Definition DOUBLE_LT (a b : float64) : bool :=
  (a <? b)%float || (isna b && notna a).

Definition entry_lt {K} (a b : K * float64) : bool :=
  DOUBLE_LT (snd a) (snd b).

(** [nargsort] for [ascending=False] and [na_position='last']: the
    entries that are not null are reversed, sorted ascending and reversed
    again, and the null entries follow in their own order. *)
Definition nargsort {K} (s : list (K * float64)) : list (K * float64) :=
  let non_nans := List.filter (fun e => notna (snd e)) s in
  let nans := List.filter (fun e => isna (snd e)) s in
  rev (aquicksort entry_lt (rev non_nans)) ++ nans.

(** The algorithm the script runs. *)
Definition quicksort : Sorter := fun K s => nargsort s.

(** The entries that stand where [a] may stand: the nulls when [a] is
    null, otherwise the entries whose value ties with the one of [a]. *)
Definition same_class {K} (a x : K * float64) : bool :=
  if isna (snd a) then isna (snd x) else ties_with entry_lt a x.

(** The place of a [float64] value in the order of the values: its class,
    then its exponent and mantissa. *)
Definition rank (f : spec_float) : list Z :=
  match f with
  | S754_zero _ => [0; 0; 0]
  | S754_infinity s => [if s then -2 else 2; 0; 0]
  | S754_nan => [3; 0; 0]
  | S754_finite s m e => if s then [-1; - e; Z.neg m] else [1; e; Z.pos m]
  end.

Definition sf_is_nan (f : spec_float) : bool :=
  match f with
  | S754_nan => true
  | _ => false
  end.

Definition frank (x : float64) : list Z := rank (Prim2SF x).

(** ** KPIs (app.py, lines 69-72) *)

Definition total_sales (df_filtered : DataFrame) : float64 :=
  Series_sum (map line_value_aed df_filtered).

Definition unique_orders (df_filtered : DataFrame) : nat :=
  nunique (map order_id df_filtered).

Definition avg_order_value (df_filtered : DataFrame) : float64 :=
  Series_mean (map snd (groupby_sum String.ltb order_id df_filtered)).

Definition loyalty_ratio (df_filtered : DataFrame) : float64 :=
  (Series_mean (map loyalty_member df_filtered) * 100)%float.

(** ** Charts and the SKU table (app.py, lines 119-161 and 196-199) *)

Definition DAYS : list string :=
  ["Monday"; "Tuesday"; "Wednesday"; "Thursday"; "Friday"; "Saturday";
   "Sunday"].

(** The series [dow] that [plot_dow] draws.  A count is an integer; after
    [reindex] a label without a group holds a null. *)
Definition plot_dow (df : DataFrame) : list (string * option nat) :=
  reindex DAYS (groupby_nunique String.ltb day_of_week df).

(** The key of the SKU table and its order: the three columns compared
    left to right. *)
Definition sku_key (r : Row) : option (string * string * string) :=
  match sku_id r, brand r, city_zone r with
  | Some s, Some b, Some z => Some (s, b, z)
  | _, _, _ => None
  end.

Definition ltb3 (a b : string * string * string) : bool :=
  let '(a1, a2, a3) := a in
  let '(b1, b2, b3) := b in
  String.ltb a1 b1
  || (String.eqb a1 b1
      && (String.ltb a2 b2 || (String.eqb a2 b2 && String.ltb a3 b3))).

Section TopN.

(** The algorithm of the default [kind]. *)
Variable kind : Sorter.

(** [s.sort_values(ascending=False)]. *)
Definition sort_values_desc {K} (s : list (K * float64)) : list (K * float64) :=
  kind K s.

Definition plot_top_cities (df : DataFrame) : list (string * float64) :=
  head 10 (sort_values_desc (groupby_sum String.ltb city df)).

Definition plot_top_city_zones (df : DataFrame) : list (string * float64) :=
  head 10 (sort_values_desc (groupby_sum String.ltb city_zone df)).

Definition plot_department_sales (df : DataFrame) : list (string * float64) :=
  head 10 (sort_values_desc (groupby_sum String.ltb department df)).

Definition plot_category_sales (df : DataFrame) : list (string * float64) :=
  head 10 (sort_values_desc (groupby_sum String.ltb category df)).

Definition top_skus (df_filtered : DataFrame)
    : list (string * string * string * float64) :=
  head 50 (sort_values_desc (groupby_sum ltb3 sku_key df_filtered)).

End TopN.

(** ** The loader (app.py, lines 14-22) *)

(** A data line of the CSV file as [read_csv] hands it on, by column.  The
    four columns the loader converts are kept as the text of the cell
    ([None] for an empty cell); the other columns are already typed. *)
Record CsvRow := mkCsvRow {
  csv_order_id : option string;
  csv_order_datetime : option string;
  csv_order_month : option string;
  csv_department : option string;
  csv_category : option string;
  csv_brand : option string;
  csv_sku_id : option string;
  csv_city : option string;
  csv_city_zone : option string;
  csv_channel : option string;
  csv_nationality_group : option string;
  csv_age : option Z;
  csv_loyalty_member : float64;
  csv_quantity : option string;
  csv_line_value_aed : option string;
  csv_basket_size_items : float64
}.

(** The file: the names [read_csv] gives its columns, which are the names
    of the header line as they are written (white space included; a name
    written twice is numbered by [read_csv] and is two names here), and its
    data lines.  A field of a line holds the cell of the column that has
    the field's name once the names are stripped (line 16), and nulls when
    the header has no such column. *)
Record CsvFile := mkCsvFile {
  csv_columns : list string;
  csv_lines : list CsvRow
}.

(** How text is read as a timestamp and as a number is the library's
    business; the loader is stated over any readers.  Timestamps are read
    a column at a time, because the library settles on one format for the
    whole column: [read_datetimes] is the conversion [read_csv] tries on a
    [parse_dates] column, which answers [None] when it leaves the column
    as text; [to_datetime_coerce] is [pd.to_datetime(col, errors='coerce')],
    which turns what it cannot read into a null; [read_number] answers
    [None] on text that is not a number. *)
Record Readers := mkReaders {
  read_datetimes : list (option string) -> option (list (option Timestamp));
  to_datetime_coerce : list (option string) -> list (option Timestamp);
  read_number : string -> option float64
}.

(** A reader answers with one cell per cell of the column. *)
Definition conforming (R : Readers) : Prop :=
  (forall col dts, read_datetimes R col = Some dts -> length dts = length col)
  /\ (forall col, length (to_datetime_coerce R col) = length col).

Inductive PyError :=
  AttributeError | NameError | ValueError | KeyError | TypeError.

Inductive result (A : Type) :=
| Ok (a : A)
| Raise (e : PyError).
Arguments Ok {A} a.
Arguments Raise {A} e.

(** Days from 1970-01-01 to a civil date, and the weekday, Monday = 0. *)
Definition days_from_civil (y m d : Z) : Z :=
  let y' := if m <=? 2 then y - 1 else y in
  let era := y' / 400 in
  let yoe := y' - era * 400 in
  let doy := (153 * (if 2 <? m then m - 3 else m + 9) + 2) / 5 + d - 1 in
  let doe := yoe * 365 + yoe / 4 - yoe / 100 + doy in
  era * 146097 + doe - 719468.

Definition weekday (t : Timestamp) : Z :=
  (days_from_civil (ts_year t) (ts_month t) (ts_day t) + 3) mod 7.

(** [.dt.day_name()], the English name of the weekday, and [.dt.hour]. *)
Definition day_name (t : Timestamp) : string :=
  match weekday t with
  | 0 => "Monday"
  | 1 => "Tuesday"
  | 2 => "Wednesday"
  | 3 => "Thursday"
  | 4 => "Friday"
  | 5 => "Saturday"
  | _ => "Sunday"
  end.

Definition hour (t : Timestamp) : Z := ts_hour t.

(** [str.strip()] on a column name: the white space at both ends goes. *)
Definition is_space (a : Ascii.ascii) : bool :=
  let n := Z.of_N (Ascii.N_of_ascii a) in
  ((9 <=? n) && (n <=? 13)) || ((28 <=? n) && (n <=? 32)).

Fixpoint lstrip (s : string) : string :=
  match s with
  | String a s' => if is_space a then lstrip s' else s
  | EmptyString => s
  end.

Definition strip (s : string) : string :=
  String.rev (lstrip (String.rev (lstrip s))).

(** [read_csv(path, parse_dates=["order_datetime"])] on the column: on a
    file with a header and no data line [read_csv] converts nothing, and
    the column is an empty column of text; otherwise the column becomes
    [datetime64] when the library can read it as timestamps and is left
    as text when it cannot.  Nothing is raised either way. *)
Definition parse_dates (R : Readers) (col : list (option string))
    : option (list (option Timestamp)) :=
  match col with
  | [] => None
  | _ :: _ => read_datetimes R col
  end.

(** [pd.to_numeric(cell, errors='coerce')]. *)
Definition to_numeric_coerce (R : Readers) (c : option string) : float64 :=
  match c with
  | None => NaN
  | Some s => default NaN (read_number R s)
  end.

Definition load_row (R : Readers) (c : CsvRow)
    (dt month_dt : option Timestamp) : Row :=
  {| order_id := csv_order_id c;
     order_datetime := dt;
     order_month := csv_order_month c;
     department := csv_department c;
     category := csv_category c;
     brand := csv_brand c;
     sku_id := csv_sku_id c;
     city := csv_city c;
     city_zone := csv_city_zone c;
     channel := csv_channel c;
     nationality_group := csv_nationality_group c;
     age := csv_age c;
     loyalty_member := csv_loyalty_member c;
     quantity := to_numeric_coerce R (csv_quantity c);
     line_value_aed := to_numeric_coerce R (csv_line_value_aed c);
     basket_size_items := csv_basket_size_items c;
     order_month_dt := month_dt;
     day_of_week := day_name <$> dt;
     hour_of_day := hour <$> dt |}.

(** [df[name]] by the names of the columns: a name no column has raises
    [KeyError]; a name two columns have selects a table of the two, not a
    column. *)
Inductive Selected := Column | Frame.

Definition getitem_name (name : string) (columns : list string)
    : result Selected :=
  match List.filter (String.eqb name) columns with
  | [] => Raise KeyError
  | [_] => Ok Column
  | _ :: _ :: _ => Ok Frame
  end.

(** [load_data], line by line.  [read_csv] raises [ValueError] when the
    header, as written, has no column [order_datetime] to parse.  The
    names are stripped after that.  [pd.to_datetime] raises [ValueError]
    on a table with two columns of one name and [pd.to_numeric] raises
    [TypeError] on any table; the [.dt] accessor of line 18 raises
    [AttributeError] on a table, and on the column when [read_csv] left
    it as text. *)
Definition load_data (R : Readers) (file : CsvFile) : result DataFrame :=
  (* line 15 *)
  if negb (bool_decide ("order_datetime" ∈ csv_columns file))
  then Raise ValueError
  else
    let datetimes :=
      parse_dates R (map csv_order_datetime (csv_lines file)) in
    (* line 16 *)
    let columns := map strip (csv_columns file) in
    (* line 17 *)
    match getitem_name "order_month" columns with
    | Raise e => Raise e
    | Ok Frame => Raise ValueError
    | Ok Column =>
        let months :=
          to_datetime_coerce R (map csv_order_month (csv_lines file)) in
        (* lines 18 and 19 *)
        match getitem_name "order_datetime" columns, datetimes with
        | Raise e, _ => Raise e
        | Ok Frame, _ => Raise AttributeError
        | Ok Column, None => Raise AttributeError
        | Ok Column, Some dts =>
            (* line 20 *)
            match getitem_name "line_value_aed" columns with
            | Raise e => Raise e
            | Ok Frame => Raise TypeError
            | Ok Column =>
                (* line 21 *)
                match getitem_name "quantity" columns with
                | Raise e => Raise e
                | Ok Frame => Raise TypeError
                | Ok Column =>
                    Ok (zip_with
                          (fun c cells =>
                             load_row R c (fst cells) (snd cells))
                          (csv_lines file) (zip dts months))
                end
            end
        end
    end.

(** ** The export (app.py, lines 202-207) *)

(** How a timestamp and a number are written is the library's business. *)
Record Writers := mkWriters {
  write_datetime : Timestamp -> string;
  write_number : float64 -> string
}.

(** The columns of the loaded table: those of the file and the three the
    loader adds. *)
Definition COLUMNS : list string :=
  ["order_id"; "order_datetime"; "order_month"; "department"; "category";
   "brand"; "sku_id"; "city"; "city_zone"; "channel"; "nationality_group";
   "age"; "loyalty_member"; "quantity"; "line_value_aed";
   "basket_size_items"; "order_month_dt"; "day_of_week"; "hour_of_day"].

(** A null number is written as an empty cell. *)
Definition write_cell (W : Writers) (v : float64) : option string :=
  if isna v then None else Some (write_number W v).

Definition to_csv_row (W : Writers) (r : Row) : CsvRow :=
  {| csv_order_id := order_id r;
     csv_order_datetime := write_datetime W <$> order_datetime r;
     csv_order_month := order_month r;
     csv_department := department r;
     csv_category := category r;
     csv_brand := brand r;
     csv_sku_id := sku_id r;
     csv_city := city r;
     csv_city_zone := city_zone r;
     csv_channel := channel r;
     csv_nationality_group := nationality_group r;
     csv_age := age r;
     csv_loyalty_member := loyalty_member r;
     csv_quantity := write_cell W (quantity r);
     csv_line_value_aed := write_cell W (line_value_aed r);
     csv_basket_size_items := basket_size_items r |}.

(** [df_filtered.to_csv(index=False)]: the header line, then one line per
    row. *)
Definition to_csv (W : Writers) (df_filtered : DataFrame) : CsvFile :=
  {| csv_columns := COLUMNS; csv_lines := map (to_csv_row W) df_filtered |}.

(** *** Readers for the examples

    A fragment of what the library reads: a timestamp written
    [YYYY-MM-DD HH:MM:SS], and a number written as one to fifteen decimal
    digits.  Everything else is unreadable to them: a column with such a
    cell is left as text by [read_csv], and the cell is a null after a
    conversion with [errors='coerce']. *)

Definition digit (a : Ascii.ascii) : option Z :=
  let n := Z.of_N (Ascii.N_of_ascii a) in
  if (48 <=? n) && (n <=? 57) then Some (n - 48) else None.

Fixpoint digits_value (acc : Z) (s : string) : option Z :=
  match s with
  | EmptyString => Some acc
  | String a s' => d ← digit a; digits_value (10 * acc + d) s'
  end.

Definition read_digits (s : string) : option Z :=
  match s with
  | EmptyString => None
  | _ => digits_value 0 s
  end.

Definition leap_year (y : Z) : bool :=
  ((y mod 4 =? 0) && negb (y mod 100 =? 0)) || (y mod 400 =? 0).

Definition days_in_month (y m : Z) : Z :=
  if m =? 2 then (if leap_year y then 29 else 28)
  else if (m =? 4) || (m =? 6) || (m =? 9) || (m =? 11) then 30
  else 31.

Definition iso_datetime (s : string) : option Timestamp :=
  if negb (Nat.eqb (String.length s) 19) then None
  else if negb (String.eqb (String.substring 4 1 s) "-"
                && String.eqb (String.substring 7 1 s) "-"
                && String.eqb (String.substring 10 1 s) " "
                && String.eqb (String.substring 13 1 s) ":"
                && String.eqb (String.substring 16 1 s) ":") then None
  else
    y ← read_digits (String.substring 0 4 s);
    m ← read_digits (String.substring 5 2 s);
    d ← read_digits (String.substring 8 2 s);
    hh ← read_digits (String.substring 11 2 s);
    mm ← read_digits (String.substring 14 2 s);
    ss ← read_digits (String.substring 17 2 s);
    if (1 <=? m) && (m <=? 12) && (1 <=? d) && (d <=? days_in_month y m)
       && (hh <? 24) && (mm <? 60) && (ss <? 60)
    then Some (mkTimestamp y m d hh mm ss)
    else None.

Definition decimal_digits (s : string) : option float64 :=
  if Nat.leb (String.length s) 15
  then (fun z => PrimFloat.of_uint63 (Uint63.of_Z z)) <$> read_digits s
  else None.

Definition fragment_readers : Readers :=
  {| read_datetimes :=
       mapM (fun c => match c with
                      | None => Some None
                      | Some s => Some <$> iso_datetime s
                      end);
     to_datetime_coerce := map (fun c => c ≫= iso_datetime);
     read_number := decimal_digits |}.

(** ** The script's objects

    [df] and [df_filtered] are names bound to table objects.  The store
    maps an object's identity to its rows; [df.copy()] and [df[mask]] each
    build a new object, and an assignment rebinds the name on its left. *)

Definition obj := positive.
Abbreviation Store := (gmap obj DataFrame).

Definition Py (A : Type) : Type := Store -> result (A * Store).

Definition Py_ret {A} (a : A) : Py A := fun h => Ok (a, h).

Definition Py_bind {A B} (c : Py A) (k : A -> Py B) : Py B :=
  fun h => match c h with
           | Ok (a, h') => k a h'
           | Raise e => Raise e
           end.

#[global] Instance Py_mret : MRet Py := @Py_ret.
#[global] Instance Py_mbind : MBind Py := fun A B k c => Py_bind c k.

(** A new object holding the rows [t]. *)
Definition new_object (t : DataFrame) : Py obj :=
  fun h => let o := fresh (dom h) in Ok (o, <[o := t]> h).

(** The rows of an object. *)
Definition rows_of (o : obj) : Py DataFrame :=
  fun h => match h !! o with
           | Some t => Ok (t, h)
           | None => Raise NameError
           end.

(** [o.copy()]. *)
Definition DataFrame_copy (o : obj) : Py obj :=
  t ← rows_of o ; new_object t.

(** [o[mask]]. *)
Definition DataFrame_getitem (o : obj) (mask : Row -> bool) : Py obj :=
  t ← rows_of o ; new_object (getitem_mask mask t).

(** Lines 52-61 on the store; the result is the object [df_filtered] is
    bound to in the end. *)
Definition filter_block (df : obj) (f : FilterSpec) : Py obj :=
  df_filtered ← DataFrame_copy df;
  df_filtered ←
    (if negb (String.eqb (sel_department f) ALL)
     then DataFrame_getitem df_filtered (col_eq department (sel_department f))
     else Py_ret df_filtered);
  df_filtered ←
    (if negb (String.eqb (sel_category f) ALL)
     then DataFrame_getitem df_filtered (col_eq category (sel_category f))
     else Py_ret df_filtered);
  df_filtered ←
    (if negb (String.eqb (sel_nationality f) ALL)
     then DataFrame_getitem df_filtered
            (col_eq nationality_group (sel_nationality f))
     else Py_ret df_filtered);
  df_filtered ←
    DataFrame_getitem df_filtered (age_between (age_min f) (age_max f));
  df_filtered ←
    (if negb (String.eqb (sel_month f) ALL)
     then DataFrame_getitem df_filtered (col_eq order_month (sel_month f))
     else Py_ret df_filtered);
  Py_ret df_filtered.

(** What one run of the script computes from [df_filtered]. *)
Record Outputs := mkOutputs {
  out_total_sales : float64;
  out_unique_orders : nat;
  out_avg_order_value : float64;
  out_loyalty_ratio : float64;
  out_dow : list (string * option nat);
  out_top_cities : list (string * float64);
  out_top_city_zones : list (string * float64);
  out_department_sales : list (string * float64);
  out_category_sales : list (string * float64);
  out_top_skus : list (string * string * string * float64)
}.

(** The aggregations read the rows of [df_filtered] and build values of
    their own. *)
Definition aggregations (kind : Sorter) (df_filtered : obj) : Py Outputs :=
  t ← rows_of df_filtered;
  Py_ret {| out_total_sales := total_sales t;
            out_unique_orders := unique_orders t;
            out_avg_order_value := avg_order_value t;
            out_loyalty_ratio := loyalty_ratio t;
            out_dow := plot_dow t;
            out_top_cities := plot_top_cities kind t;
            out_top_city_zones := plot_top_city_zones kind t;
            out_department_sales := plot_department_sales kind t;
            out_category_sales := plot_category_sales kind t;
            out_top_skus := top_skus kind t |}.

(** The filter step followed by the aggregations. *)
Definition script (kind : Sorter) (df : obj) (f : FilterSpec)
    : Py (obj * Outputs) :=
  df_filtered ← filter_block df f;
  out ← aggregations kind df_filtered;
  Py_ret (df_filtered, out).

(** ** The department partition and the example tables *)

(** [df[df['department'] == a]] and [df[df['department'] != a]]. *)
Definition dept_is (a : string) (df : DataFrame) : DataFrame :=
  getitem_mask (col_eq department a) df.

Definition dept_is_not (a : string) (df : DataFrame) : DataFrame :=
  getitem_mask (col_ne department a) df.

(** An order line of an order [oid] in department [dept] worth [value],
    bought by a customer of thirty; the remaining cells are empty. *)
Definition order_line (oid dept : string) (value : float64) : Row :=
  {| order_id := Some oid; order_datetime := None; order_month := None;
     department := Some dept; category := None; brand := None;
     sku_id := None; city := None; city_zone := None; channel := None;
     nationality_group := None; age := Some 30; loyalty_member := NaN;
     quantity := NaN; line_value_aed := value; basket_size_items := NaN;
     order_month_dt := None; day_of_week := None; hour_of_day := None |}.

Definition only_department (a : string) : FilterSpec :=
  {| sel_department := a; sel_category := ALL; sel_nationality := ALL;
     age_min := 30; age_max := 30; sel_month := ALL |}.

(** The three-row data set of the specification's scenario. *)
Definition three_rows : DataFrame :=
  [ order_line "o1" "Grocery" 100%float;
    order_line "o2" "Grocery" NaN;
    order_line "o3" "Electronics" 50%float ].

(** Three lines worth 0.10, 0.20 and 0.30 AED. *)
Definition three_dirhams : DataFrame :=
  [ order_line "o1" "Grocery" 0.1%float;
    order_line "o2" "Electronics" 0.2%float;
    order_line "o3" "Electronics" 0.3%float ].

(** The sum of the non-null amounts of a column, as a number. *)
Definition amounts_sum (vs : list (option Z)) : Z :=
  fold_right Z.add 0 (omap id vs).

(** The rows a boolean mask keeps and the rows it drops. *)
Definition kept {A} (mask : A -> bool) (rows : list A) : list A :=
  List.filter mask rows.

Definition dropped {A} (mask : A -> bool) (rows : list A) : list A :=
  List.filter (fun r => negb (mask r)) rows.

(** ** What the specification asks of a Top-N table *)

(** [result] is the first [n] rows of the group sums of [df] put in
    descending order, and each row holds the sum of its group. *)
Definition top_n_ok {K} `{EqDecision K} (n : nat) (ltb : K -> K -> bool)
    (key : Row -> option K) (df : DataFrame) (result : list (K * float64))
    : Prop :=
  (length result <= n)%nat
  /\ Sorted descending result
  /\ (exists sorted,
        Permutation sorted (groupby_sum ltb key df)
        /\ Sorted descending sorted
        /\ result = take n sorted)
  /\ (forall k v, (k, v) ∈ result ->
        v = group_sum float64_arith
              (map line_value_aed (group_rows key k df))).

(** Stable tie-break: two rows of [result] with the same sum stand in the
    order their groups have in [groups]. *)
Definition ties_in_order {K} (groups result : list (K * float64)) : Prop :=
  forall (i j : nat) (a b : K * float64),
    (i < j)%nat -> result !! i = Some a -> result !! j = Some b ->
    snd a = snd b ->
    exists i' j' : nat,
      (i' < j')%nat /\ groups !! i' = Some a /\ groups !! j' = Some b.

(** At most seventeen groups have a sum that is not null: the range the
    default sort is given is short enough to be sorted by insertion. *)
Definition few_groups {K} (groups : list (K * float64)) : Prop :=
  (length (List.filter (fun g => notna (snd g)) groups) <= 17)%nat.

Definition ties_kept_when_few {K} (groups result : list (K * float64))
    : Prop :=
  few_groups groups -> ties_in_order groups result.

(** Two order lines of equal value in two cities. *)
Definition city_line (oid town : string) (value : float64) : Row :=
  {| order_id := Some oid; order_datetime := None; order_month := None;
     department := None; category := None; brand := None;
     sku_id := None; city := Some town; city_zone := None; channel := None;
     nationality_group := None; age := Some 30; loyalty_member := NaN;
     quantity := NaN; line_value_aed := value; basket_size_items := NaN;
     order_month_dt := None; day_of_week := None; hour_of_day := None |}.

Definition two_cities : DataFrame :=
  [ city_line "o1" "Abu Dhabi" 10%float; city_line "o2" "Dubai" 10%float ].

(** Eighteen cities with one order line of 10 AED each. *)
Definition tied_cities : DataFrame :=
  map (fun n => city_line ("o" +:+ n) ("City " +:+ n) 10%float)
      ["01"; "02"; "03"; "04"; "05"; "06"; "07"; "08"; "09"; "10"; "11"; "12";
       "13"; "14"; "15"; "16"; "17"; "18"].

(** ** What the day-of-week series holds, and the loader's row contract *)

(** The rows of [df] ordered on day [d]. *)
Definition rows_on (d : string) (df : DataFrame) : DataFrame :=
  group_rows day_of_week d df.

(** The entry of day [d]: the number of distinct orders of that day when
    the table has a row on it, and a null when it has none. *)
Definition dow_entry (d : string) (df : DataFrame) : option nat :=
  match rows_on d df with
  | [] => None
  | rows => Some (nunique (map order_id rows))
  end.

(** A week day, an order and its line; the remaining cells are empty. *)
Definition day_line (oid day : string) : Row :=
  {| order_id := Some oid; order_datetime := None; order_month := None;
     department := None; category := None; brand := None;
     sku_id := None; city := None; city_zone := None; channel := None;
     nationality_group := None; age := Some 30; loyalty_member := NaN;
     quantity := NaN; line_value_aed := 1%float; basket_size_items := NaN;
     order_month_dt := None; day_of_week := Some day; hour_of_day := None |}.

(** Three lines of two Monday orders and one Saturday order: no Sunday. *)
Definition no_sunday : DataFrame :=
  [ day_line "o1" "Monday"; day_line "o1" "Monday"; day_line "o2" "Monday";
    day_line "o3" "Saturday" ].

(** The columns the loader passes through. *)
Definition retained (c : CsvRow) (r : Row) : Prop :=
  order_id r = csv_order_id c
  /\ order_month r = csv_order_month c
  /\ department r = csv_department c
  /\ category r = csv_category c
  /\ brand r = csv_brand c
  /\ sku_id r = csv_sku_id c
  /\ city r = csv_city c
  /\ city_zone r = csv_city_zone c
  /\ channel r = csv_channel c
  /\ nationality_group r = csv_nationality_group c
  /\ age r = csv_age c
  /\ loyalty_member r = csv_loyalty_member c
  /\ basket_size_items r = csv_basket_size_items c.

(** A numeric cell after the loader: the number read from the text, and a
    null for an empty cell or unreadable text. *)
Definition coerced_number (R : Readers) (cell : option string) (v : float64)
    : Prop :=
  match cell with
  | None => isna v = true
  | Some s =>
      match read_number R s with
      | Some x => v = x
      | None => isna v = true
      end
  end.

(** The loaded row [r] of the CSV line [c]: the two numbers coerced, the
    day and the hour taken from the row's timestamp, the rest retained. *)
Definition loaded (R : Readers) (c : CsvRow) (r : Row) : Prop :=
  coerced_number R (csv_line_value_aed c) (line_value_aed r)
  /\ coerced_number R (csv_quantity c) (quantity r)
  /\ day_of_week r = day_name <$> order_datetime r
  /\ hour_of_day r = hour <$> order_datetime r
  /\ retained c r.

(** A CSV line of an order at [when], of month [month], with the texts
    [qty] and [value] in the two numeric columns. *)
Definition csv_line (oid when month qty value : string) : CsvRow :=
  {| csv_order_id := Some oid; csv_order_datetime := Some when;
     csv_order_month := Some month; csv_department := Some "Grocery";
     csv_category := None; csv_brand := None; csv_sku_id := None;
     csv_city := None; csv_city_zone := None; csv_channel := None;
     csv_nationality_group := None; csv_age := Some 30;
     csv_loyalty_member := 1%float; csv_quantity := Some qty;
     csv_line_value_aed := Some value; csv_basket_size_items := 2%float |}.

(** The header of the data set. *)
Definition HEADER : list string :=
  ["order_id"; "order_datetime"; "order_month"; "department"; "category";
   "brand"; "sku_id"; "city"; "city_zone"; "channel"; "nationality_group";
   "age"; "loyalty_member"; "quantity"; "line_value_aed";
   "basket_size_items"].

(** A file whose second line has text for a quantity, for a value and for
    a month, and good timestamps throughout. *)
Definition malformed_numbers : CsvFile :=
  {| csv_columns := HEADER;
     csv_lines :=
       [ csv_line "o1" "2024-01-01 10:30:00" "2024-01-01 00:00:00" "2" "100";
         csv_line "o2" "2024-01-06 18:05:00" "January" "two" "n/a" ] |}.

(** A file whose second line has text for its timestamp. *)
Definition malformed_datetime : CsvFile :=
  {| csv_columns := HEADER;
     csv_lines :=
       [ csv_line "o1" "2024-01-01 10:30:00" "2024-01-01 00:00:00" "2" "100";
         csv_line "o2" "not a date" "2024-01-01 00:00:00" "1" "50" ] |}.

(** The names of a header written with a blank before one of them. *)
Definition pad (name : string) (columns : list string) : list string :=
  map (fun c => if String.eqb c name then (" " ++ c)%string else c) columns.

Definition padded_datetime : CsvFile :=
  {| csv_columns := pad "order_datetime" HEADER;
     csv_lines := csv_lines malformed_numbers |}.

Definition padded_value : CsvFile :=
  {| csv_columns := pad "line_value_aed" HEADER;
     csv_lines := csv_lines malformed_numbers |}.

(** The columns the loader selects by name. *)
Definition LOADED_FROM : list string :=
  ["order_datetime"; "order_month"; "line_value_aed"; "quantity"].

(** ** The sidebar widgets (app.py, lines 33-49) *)

(** [sorted(df[col].unique())]: the distinct cells in ascending order.
    Python cannot order a null (a float NaN) against text, so [sorted]
    raises [TypeError] ([None] here) when the column holds both; a column
    of nulls alone gives the one null. *)
Definition sorted_unique (cells : list (option string))
    : option (list (option string)) :=
  let texts := sorted_keys String.ltb (omap id cells) in
  if bool_decide (None ∈ cells) then
    match texts with
    | [] => Some [None]
    | _ :: _ => None
    end
  else Some (map Some texts).

(** The options of a select box: ["All"] and then the sorted cells. *)
Definition selectbox_options (col : Row -> option string) (df : DataFrame)
    : option (list (option string)) :=
  cons (Some ALL) <$> sorted_unique (map col df).

(** [df['age'].min()] and [df['age'].max()] pass over nulls; on a column
    without a non-null age they are NaN and [int(...)] raises [ValueError]
    ([None] here). *)
Definition Series_min (vs : list Z) : option Z :=
  match vs with
  | [] => None
  | v :: vs' => Some (fold_left Z.min vs' v)
  end.

Definition Series_max (vs : list Z) : option Z :=
  match vs with
  | [] => None
  | v :: vs' => Some (fold_left Z.max vs' v)
  end.

(** The bounds handed to the age slider, which are also its value until
    the user moves it. *)
Definition age_slider (df : DataFrame) : option (Z * Z) :=
  lo ← Series_min (omap age df);
  hi ← Series_max (omap age df);
  Some (lo, hi).

(** Lines 33-37 with no widget touched: every select box at its first
    option and the slider at its bounds.  A line that raises ends the
    script. *)
Definition sidebar_defaults (df : DataFrame) : option FilterSpec :=
  _ ← selectbox_options department df;
  _ ← selectbox_options category df;
  _ ← selectbox_options nationality_group df;
  bounds ← age_slider df;
  _ ← selectbox_options order_month df;
  Some {| sel_department := ALL; sel_category := ALL;
          sel_nationality := ALL; age_min := fst bounds;
          age_max := snd bounds; sel_month := ALL |}.

(** The same filter with a department chosen. *)
Definition choose_department (a : string) (f : FilterSpec) : FilterSpec :=
  {| sel_department := a; sel_category := sel_category f;
     sel_nationality := sel_nationality f; age_min := age_min f;
     age_max := age_max f; sel_month := sel_month f |}.

(** Lines 53-54 for any option of the department box.  The box can hold a
    null (the option of a column of nulls): a null differs from ["All"],
    so the mask is applied, and no cell equals a null. *)
Definition filter_department (choice : option string) (df : DataFrame)
    : DataFrame :=
  match choice with
  | Some a =>
      if negb (String.eqb a ALL) then getitem_mask (col_eq department a) df
      else df
  | None => getitem_mask (fun _ => false) df
  end.

(** [g] refines [f]: each select box of [f] is at ["All"] or holds what
    [g] holds, and the age range of [g] lies inside the one of [f]. *)
Definition box_refines (sel_g sel_f : string) : Prop :=
  sel_f = ALL \/ sel_g = sel_f.

Definition refines (g f : FilterSpec) : Prop :=
  box_refines (sel_department g) (sel_department f)
  /\ box_refines (sel_category g) (sel_category f)
  /\ box_refines (sel_nationality g) (sel_nationality f)
  /\ age_min f <= age_min g /\ age_max g <= age_max f
  /\ box_refines (sel_month g) (sel_month f).

(** The labels of the chart picker. *)
Definition GRAPH_CHOICES : list string :=
  ["Monthly Revenue Trend"; "Channel Ratio"; "Orders by Day of Week";
   "Top Cities"; "Top City Zones"; "Average Order Value (AOV)";
   "Department Sales"; "Category Sales"; "Basket Size Distribution"].

(** ** The other charts (app.py, lines 103-117, 142-147, 163-167) *)

#[global] Instance Timestamp_eq_dec : EqDecision Timestamp.
Proof. solve_decision. Defined.

(** Timestamps in time order: the fields compared from the year down. *)
Definition ts_fields (t : Timestamp) : list Z :=
  [ts_year t; ts_month t; ts_day t; ts_hour t; ts_minute t; ts_second t].

Fixpoint lex_compare (a b : list Z) : comparison :=
  match a, b with
  | [], [] => Eq
  | [], _ :: _ => Lt
  | _ :: _, [] => Gt
  | x :: a', y :: b' =>
      match x ?= y with
      | Eq => lex_compare a' b'
      | c => c
      end
  end.

Definition ts_ltb (a b : Timestamp) : bool :=
  match lex_compare (ts_fields a) (ts_fields b) with
  | Lt => true
  | _ => false
  end.

(** [s.sort_index()]: the entries in ascending order of their labels. *)
Fixpoint insert_entry {K V} (ltb : K -> K -> bool) (e : K * V)
    (s : list (K * V)) : list (K * V) :=
  match s with
  | [] => [e]
  | e' :: s' =>
      if ltb (fst e') (fst e) then e' :: insert_entry ltb e s'
      else e :: s
  end.

Definition sort_index {K V} (ltb : K -> K -> bool) (s : list (K * V))
    : list (K * V) :=
  fold_right (insert_entry ltb) [] s.

(** The series [monthly] of [plot_monthly_trend]. *)
Definition plot_monthly_trend (df : DataFrame) : list (Timestamp * float64) :=
  sort_index ts_ltb (groupby_sum ts_ltb order_month_dt df).

(** The series [ch] of [plot_channel_ratio]. *)
Definition plot_channel_ratio (df : DataFrame) : list (string * float64) :=
  groupby_sum String.ltb channel df.

(** The series [orders] of [plot_aov]. *)
Definition plot_aov (df : DataFrame) : list (string * float64) :=
  groupby_sum String.ltb order_id df.

(** The column [plot_basket_size] hands to the histogram. *)
Definition plot_basket_size (df : DataFrame) : list float64 :=
  map basket_size_items df.

(** What a chart function draws. *)
Inductive Chart :=
| MonthlyTrend (monthly : list (Timestamp * float64))
| ChannelRatio (ch : list (string * float64))
| OrdersByDow (dow : list (string * option nat))
| TopCities (cities : list (string * float64))
| TopCityZones (zones : list (string * float64))
| AovDistribution (orders : list (string * float64))
| DepartmentSales (dept : list (string * float64))
| CategorySales (cat : list (string * float64))
| BasketSize (sizes : list float64).

(** The [if]/[elif] chain of lines 170-187; a label without a branch
    draws nothing. *)
Definition show_visualization (kind : Sorter) (graph_choice : string)
    (df_filtered : DataFrame) : option Chart :=
  if String.eqb graph_choice "Monthly Revenue Trend"
  then Some (MonthlyTrend (plot_monthly_trend df_filtered))
  else if String.eqb graph_choice "Channel Ratio"
  then Some (ChannelRatio (plot_channel_ratio df_filtered))
  else if String.eqb graph_choice "Orders by Day of Week"
  then Some (OrdersByDow (plot_dow df_filtered))
  else if String.eqb graph_choice "Top Cities"
  then Some (TopCities (plot_top_cities kind df_filtered))
  else if String.eqb graph_choice "Top City Zones"
  then Some (TopCityZones (plot_top_city_zones kind df_filtered))
  else if String.eqb graph_choice "Average Order Value (AOV)"
  then Some (AovDistribution (plot_aov df_filtered))
  else if String.eqb graph_choice "Department Sales"
  then Some (DepartmentSales (plot_department_sales kind df_filtered))
  else if String.eqb graph_choice "Category Sales"
  then Some (CategorySales (plot_category_sales kind df_filtered))
  else if String.eqb graph_choice "Basket Size Distribution"
  then Some (BasketSize (plot_basket_size df_filtered))
  else None.

(** The label each chart is drawn for. *)
Definition chart_label (c : Chart) : string :=
  match c with
  | MonthlyTrend _ => "Monthly Revenue Trend"
  | ChannelRatio _ => "Channel Ratio"
  | OrdersByDow _ => "Orders by Day of Week"
  | TopCities _ => "Top Cities"
  | TopCityZones _ => "Top City Zones"
  | AovDistribution _ => "Average Order Value (AOV)"
  | DepartmentSales _ => "Department Sales"
  | CategorySales _ => "Category Sales"
  | BasketSize _ => "Basket Size Distribution"
  end.

(** Tables for the examples below. *)
Definition aged_line (oid dept : string) (years : option Z) : Row :=
  {| order_id := Some oid; order_datetime := None; order_month := None;
     department := Some dept; category := None; brand := None;
     sku_id := None; city := None; city_zone := None; channel := None;
     nationality_group := None; age := years; loyalty_member := NaN;
     quantity := NaN; line_value_aed := 1%float; basket_size_items := NaN;
     order_month_dt := None; day_of_week := None; hour_of_day := None |}.

Definition four_customers : DataFrame :=
  [ aged_line "o1" "Grocery" (Some 41); aged_line "o2" "Bakery" (Some 23);
    aged_line "o2" "Grocery" (Some 23); aged_line "o3" "Bakery" (Some 35) ].

Definition ages_20_to_40 : FilterSpec :=
  {| sel_department := ALL; sel_category := ALL; sel_nationality := ALL;
     age_min := 20; age_max := 40; sel_month := ALL |}.

Definition ages_30_to_40 : FilterSpec :=
  {| sel_department := ALL; sel_category := ALL; sel_nationality := ALL;
     age_min := 30; age_max := 40; sel_month := ALL |}.

Definition ages_40_to_30 : FilterSpec :=
  {| sel_department := ALL; sel_category := ALL; sel_nationality := ALL;
     age_min := 40; age_max := 30; sel_month := ALL |}.

(** A line without a department beside a line with one. *)
Definition unlabelled_line (oid : string) : Row :=
  {| order_id := Some oid; order_datetime := None; order_month := None;
     department := None; category := None; brand := None;
     sku_id := None; city := None; city_zone := None; channel := None;
     nationality_group := None; age := Some 30; loyalty_member := NaN;
     quantity := NaN; line_value_aed := 1%float; basket_size_items := NaN;
     order_month_dt := None; day_of_week := None; hour_of_day := None |}.

Definition mixed_departments : DataFrame :=
  [ unlabelled_line "o1"; aged_line "o2" "Grocery" (Some 30) ].

(** The labels of [chart] are distinct, and each is the key of a row of
    [df] that satisfies [f]. *)
Definition keys_from_rows {K} (key : Row -> option K) (df : DataFrame)
    (f : FilterSpec) (chart : list (K * float64)) : Prop :=
  NoDup (map fst chart)
  /\ (forall k v, (k, v) ∈ chart ->
        exists r, r ∈ df /\ Satisfies f r /\ key r = Some k).

(** [result] has as many rows as there are groups, up to [n]; when there
    are at most [n] groups it holds every group. *)
Definition top_n_complete {K} (n : nat) (groups result : list (K * float64))
    : Prop :=
  length result = Nat.min n (length groups)
  /\ ((length groups <= n)%nat -> Permutation result groups).

(** * Properties *)

(** ** The filter step *)

Lemma filter_filter_andb {A} (p q : A -> bool) (l : list A) :
  List.filter q (List.filter p l) = List.filter (fun x => p x && q x) l.
Proof.
  induction l as [|x l IH]; simpl; [reflexivity|].
  destruct (p x) eqn:Hp; simpl; [|exact IH].
  destruct (q x); simpl; [f_equal|]; exact IH.
Qed.

Lemma filter_true_id {A} (l : list A) : List.filter (fun _ => true) l = l.
Proof. induction l; simpl; [reflexivity|f_equal; assumption]. Qed.

Lemma filter_sublist {A} (p : A -> bool) (l : list A) :
  sublist (List.filter p l) l.
Proof.
  induction l as [|x l IH]; simpl; [constructor|].
  destruct (p x); [apply sublist_skip|apply sublist_cons]; exact IH.
Qed.

Lemma filter_idem {A} (p : A -> bool) (l : list A) :
  List.filter p (List.filter p l) = List.filter p l.
Proof.
  rewrite filter_filter_andb. apply List.filter_ext.
  intros x. destruct (p x); reflexivity.
Qed.

Lemma optional_mask (b : bool) (p : Row -> bool) (df : DataFrame) :
  (if b then getitem_mask p df else df)
  = List.filter (fun r => negb b || p r) df.
Proof.
  destruct b; simpl; [reflexivity|]. symmetry. apply filter_true_id.
Qed.

(** The chain of masks is one mask: the conjunction. *)
Lemma apply_filters_spec (df : DataFrame) (f : FilterSpec) :
  apply_filters df f = List.filter (satisfies f) df.
Proof.
  unfold apply_filters. cbv zeta.
  rewrite !optional_mask. unfold getitem_mask.
  rewrite !filter_filter_andb.
  apply List.filter_ext. intros r. unfold satisfies, active.
  rewrite !andb_assoc. reflexivity.
Qed.

Lemma optional_eq_iff (sel : string) (col : Row -> option string) (r : Row) :
  negb (active sel) || col_eq col sel r = true <-> exact_match sel (col r).
Proof.
  unfold active, exact_match, col_eq.
  destruct (String.eqb_spec sel ALL) as [->|Hne]; simpl.
  - split; [intros _ H; contradiction|reflexivity].
  - destruct (col r) as [s|].
    + destruct (String.eqb_spec s sel) as [->|Hs]; split; intros H;
        try reflexivity; try discriminate.
      specialize (H Hne). congruence.
    + split; [discriminate|]. intros H. specialize (H Hne). discriminate.
Qed.

Lemma age_between_iff (lo hi : Z) (r : Row) :
  age_between lo hi r = true <-> exists a, age r = Some a /\ lo <= a <= hi.
Proof.
  unfold age_between. destruct (age r) as [a|].
  - rewrite andb_true_iff, !Z.leb_le. split.
    + intros H. exists a. split; [reflexivity|lia].
    + intros (a' & Ha & H). injection Ha as <-. lia.
  - split; [discriminate|]. intros (a & Ha & _). discriminate.
Qed.

Lemma satisfies_iff (f : FilterSpec) (r : Row) :
  satisfies f r = true <-> Satisfies f r.
Proof.
  unfold satisfies, Satisfies.
  rewrite !andb_true_iff, !optional_eq_iff, age_between_iff. tauto.
Qed.

(** C1: the filtered table is exactly the rows of the input that satisfy
    every active predicate, no longer than the input, with the rows in
    their input order and each row as it was in the input. *)
Theorem filtered_rows_exact (df : DataFrame) (f : FilterSpec) :
  apply_filters df f = List.filter (satisfies f) df
  /\ (forall r, satisfies f r = true <-> Satisfies f r)
  /\ (forall r, r ∈ apply_filters df f <-> r ∈ df /\ Satisfies f r)
  /\ (length (apply_filters df f) <= length df)%nat
  /\ sublist (apply_filters df f) df.
Proof.
  split; [apply apply_filters_spec|]. split; [apply satisfies_iff|].
  rewrite apply_filters_spec. split; [|split].
  - intros r. rewrite <- satisfies_iff, !list_elem_of_In.
    apply List.filter_In.
  - apply List.filter_length_le.
  - apply filter_sublist.
Qed.

(** C2: filtering an already filtered table with the same specification
    changes nothing. *)
Theorem filter_idempotent (df : DataFrame) (f : FilterSpec) :
  apply_filters (apply_filters df f) f = apply_filters df f.
Proof. rewrite !apply_filters_spec. apply filter_idem. Qed.

(** ** KPIs *)

Lemma pairwise_sum_S {A} (ar : Arith A) (fuel : nat) (l : list A) :
  pairwise_sum ar (S fuel) l
  = if (length l <=? 128)%nat then sum_block ar l
    else add ar
           (pairwise_sum ar fuel
              (take (length l / 2 - (length l / 2) mod 8) l))
           (pairwise_sum ar fuel
              (drop (length l / 2 - (length l / 2) mod 8) l)).
Proof. reflexivity. Qed.

Lemma pairwise_sum_O {A} (ar : Arith A) (l : list A) :
  pairwise_sum ar 0 l = sum_block ar l.
Proof. simpl. destruct (length l <=? 128)%nat; reflexivity. Qed.

Lemma split_point (n : nat) :
  (128 < n)%nat ->
  (0 < n / 2 - (n / 2) mod 8 < n)%nat.
Proof.
  intros Hn.
  assert (Hhalf : (64 <= n / 2)%nat) by (apply Nat.div_le_lower_bound; lia).
  assert (Hlt : (n / 2 < n)%nat) by (apply Nat.div_lt; lia).
  pose proof (Nat.mod_upper_bound (n / 2) 8 ltac:(lia)) as Hm.
  lia.
Qed.

(** *** The sums on exact amounts *)

Lemma fold_add_exact (zs : list Z) (acc : Z) :
  fold_left (add exact_arith) (map Some zs) (Some acc)
  = Some (acc + fold_right Z.add 0 zs).
Proof.
  revert acc. induction zs as [|z zs IH]; intros acc; simpl.
  - f_equal. lia.
  - rewrite IH. f_equal. lia.
Qed.

Lemma sum_short_exact (zs : list Z) :
  sum_short exact_arith (map Some zs) = Some (fold_right Z.add 0 zs).
Proof. unfold sum_short. simpl. apply fold_add_exact. Qed.

Lemma sum_unrolled_exact (n : nat) :
  forall (zs : list Z) (r0 r1 r2 r3 r4 r5 r6 r7 : Z),
    (length zs <= n)%nat ->
    sum_unrolled exact_arith
      (Some r0, Some r1, Some r2, Some r3, Some r4, Some r5, Some r6, Some r7)
      (map Some zs)
    = Some (r0 + r1 + r2 + r3 + r4 + r5 + r6 + r7 + fold_right Z.add 0 zs).
Proof.
  induction n as [|n IH]; intros zs r0 r1 r2 r3 r4 r5 r6 r7 Hlen.
  - destruct zs; [|simpl in Hlen; lia]. simpl. f_equal. lia.
  - destruct zs as [|z0 [|z1 [|z2 [|z3 [|z4 [|z5 [|z6 [|z7 zs]]]]]]]];
      try (simpl; f_equal; lia).
    change (map Some (z0 :: z1 :: z2 :: z3 :: z4 :: z5 :: z6 :: z7 :: zs))
      with (Some z0 :: Some z1 :: Some z2 :: Some z3 :: Some z4 :: Some z5
            :: Some z6 :: Some z7 :: map Some zs).
    cbn [sum_unrolled]. simpl add.
    rewrite IH by (simpl in Hlen; lia). simpl. f_equal. lia.
Qed.

Lemma sum_block_exact (zs : list Z) :
  sum_block exact_arith (map Some zs) = Some (fold_right Z.add 0 zs).
Proof.
  destruct zs as [|z0 [|z1 [|z2 [|z3 [|z4 [|z5 [|z6 [|z7 zs]]]]]]]];
    try apply sum_short_exact.
  change (map Some (z0 :: z1 :: z2 :: z3 :: z4 :: z5 :: z6 :: z7 :: zs))
    with (Some z0 :: Some z1 :: Some z2 :: Some z3 :: Some z4 :: Some z5
          :: Some z6 :: Some z7 :: map Some zs).
  cbn [sum_block].
  rewrite (sum_unrolled_exact (length zs)) by lia. simpl. f_equal. lia.
Qed.

Lemma fold_add_app (l1 l2 : list Z) :
  fold_right Z.add 0 (l1 ++ l2)
  = fold_right Z.add 0 l1 + fold_right Z.add 0 l2.
Proof. induction l1 as [|x l1 IH]; simpl; lia. Qed.

Lemma pairwise_sum_exact (fuel : nat) (zs : list Z) :
  pairwise_sum exact_arith fuel (map Some zs)
  = Some (fold_right Z.add 0 zs).
Proof.
  revert zs. induction fuel as [|fuel IH]; intros zs.
  - rewrite pairwise_sum_O. apply sum_block_exact.
  - rewrite pairwise_sum_S.
    destruct (length (map Some zs) <=? 128)%nat; [apply sum_block_exact|].
    rewrite <- !fmap_take, <- !fmap_drop.
    change (fmap Some) with (map (@Some Z)). rewrite !IH. simpl.
    rewrite <- fold_add_app, take_drop. reflexivity.
Qed.

Lemma ndarray_sum_exact (zs : list Z) :
  ndarray_sum exact_arith (map Some zs) = Some (fold_right Z.add 0 zs).
Proof.
  destruct zs as [|z zs]; [reflexivity|].
  unfold ndarray_sum.
  change (map Some (z :: zs)) with (Some z :: map Some zs) at 1.
  cbv iota. rewrite pairwise_sum_exact. reflexivity.
Qed.

Lemma fillna_exact (vs : list (option Z)) :
  map (fun v => if null exact_arith v then zero exact_arith else v) vs
  = map Some (map (default 0) vs).
Proof.
  induction vs as [|[z|] vs IH]; simpl; [reflexivity| |]; f_equal; exact IH.
Qed.

Lemma amounts_sum_default (vs : list (option Z)) :
  fold_right Z.add 0 (map (default 0) vs) = amounts_sum vs.
Proof.
  unfold amounts_sum. induction vs as [|[z|] vs IH]; simpl; [reflexivity| |];
    rewrite IH; reflexivity.
Qed.

(** On exact amounts [Series.sum()] is the sum of the non-null values. *)
Lemma nansum_exact (vs : list (option Z)) :
  nansum exact_arith vs = Some (amounts_sum vs).
Proof.
  unfold nansum. rewrite fillna_exact, ndarray_sum_exact, amounts_sum_default.
  reflexivity.
Qed.

Lemma amounts_sum_cons (z : Z) (vs : list (option Z)) :
  amounts_sum (Some z :: vs) = z + amounts_sum vs.
Proof. reflexivity. Qed.

Lemma amounts_sum_None (vs : list (option Z)) :
  amounts_sum (None :: vs) = amounts_sum vs.
Proof. reflexivity. Qed.

Lemma kahan_exact (vs : list (option Z)) (acc : Z) :
  fold_left (kahan_step exact_arith) vs (Some acc, Some 0)
  = (Some (acc + amounts_sum vs), Some 0).
Proof.
  revert acc. induction vs as [|[z|] vs IH]; intros acc.
  - unfold amounts_sum. simpl. do 2 f_equal. lia.
  - cbn [fold_left]. unfold kahan_step at 2. simpl.
    replace (acc + (z - 0) - acc - (z - 0)) with 0 by lia.
    rewrite IH, amounts_sum_cons. do 2 f_equal. lia.
  - cbn [fold_left]. unfold kahan_step at 2. simpl. apply IH.
Qed.

(** So is the sum of a group. *)
Lemma group_sum_exact (vs : list (option Z)) :
  group_sum exact_arith vs = Some (amounts_sum vs).
Proof. unfold group_sum. simpl. rewrite kahan_exact. reflexivity. Qed.

Lemma amounts_sum_partition {A} (mask : A -> bool) (value : A -> option Z)
    (rows : list A) :
  amounts_sum (map value rows)
  = amounts_sum (map value (kept mask rows))
    + amounts_sum (map value (dropped mask rows)).
Proof.
  unfold kept, dropped.
  induction rows as [|r rows IH]; simpl; [reflexivity|].
  destruct (mask r); simpl; destruct (value r) as [z|];
    rewrite ?amounts_sum_cons, ?amounts_sum_None; lia.
Qed.

(** *** The sums on [float64] cells *)

(** The length of the array is fuel enough for the pairwise sum: more
    fuel gives the same value. *)
Lemma pairwise_sum_fuel {A} (ar : Arith A) (f1 : nat) :
  forall (f2 : nat) (l : list A),
    (length l <= f1)%nat -> (length l <= f2)%nat ->
    pairwise_sum ar f1 l = pairwise_sum ar f2 l.
Proof.
  induction f1 as [|f1 IH]; intros f2 l H1 H2.
  - destruct l; [|simpl in H1; lia]. destruct f2; reflexivity.
  - destruct f2 as [|f2].
    + destruct l; [|simpl in H2; lia]. reflexivity.
    + rewrite !pairwise_sum_S.
      destruct (length l <=? 128)%nat eqn:Hn; [reflexivity|].
      apply Nat.leb_gt in Hn. pose proof (split_point _ Hn) as Hs.
      f_equal; apply IH; rewrite ?length_take, ?length_drop; lia.
Qed.

Lemma sum_unrolled_zeros (n : nat) :
  forall l : list float64,
    (length l <= n)%nat -> Forall (fun v => v = 0%float) l ->
    sum_unrolled float64_arith
      (0, 0, 0, 0, 0, 0, 0, 0)%float l = 0%float.
Proof.
  induction n as [|n IH]; intros l Hlen Hall.
  - destruct l; [|simpl in Hlen; lia]. vm_compute. reflexivity.
  - destruct l as [|z0 [|z1 [|z2 [|z3 [|z4 [|z5 [|z6 [|z7 l]]]]]]]];
      repeat match goal with
             | H : Forall _ (_ :: _) |- _ =>
                 apply Forall_cons_1 in H as [-> H]
             end;
      try (vm_compute; reflexivity).
    cbn [sum_unrolled]. simpl add.
    change (0 + 0)%float with 0%float.
    apply IH; [simpl in Hlen; lia|assumption].
Qed.

Lemma sum_block_zeros (l : list float64) :
  l <> [] -> Forall (fun v => v = 0%float) l ->
  sum_block float64_arith l = 0%float.
Proof.
  intros Hne Hall.
  destruct l as [|z0 [|z1 [|z2 [|z3 [|z4 [|z5 [|z6 [|z7 l]]]]]]]];
    [contradiction|..];
    repeat match goal with
           | H : Forall _ (_ :: _) |- _ =>
               apply Forall_cons_1 in H as [-> H]
           end;
    try (vm_compute; reflexivity).
  cbn [sum_block]. apply (sum_unrolled_zeros (length l)); [lia|assumption].
Qed.

Lemma pairwise_sum_zeros (fuel : nat) :
  forall l : list float64,
    l <> [] -> Forall (fun v => v = 0%float) l ->
    pairwise_sum float64_arith fuel l = 0%float.
Proof.
  induction fuel as [|fuel IH]; intros l Hne Hall.
  - rewrite pairwise_sum_O. apply sum_block_zeros; assumption.
  - rewrite pairwise_sum_S.
    destruct (length l <=? 128)%nat eqn:Hn;
      [apply sum_block_zeros; assumption|].
    apply Nat.leb_gt in Hn. pose proof (split_point _ Hn) as Hs.
    rewrite !IH; [vm_compute; reflexivity|..].
    + intros H. apply (f_equal length) in H. rewrite length_drop in H.
      change (length (@nil float64)) with 0%nat in H. lia.
    + apply Forall_drop, Hall.
    + intros H. apply (f_equal length) in H. rewrite length_take in H.
      change (length (@nil float64)) with 0%nat in H. lia.
    + apply Forall_take, Hall.
Qed.

(** A column without a non-null value sums to zero. *)
Lemma Series_sum_all_null (vs : list float64) :
  Forall (fun v => isna v = true) vs -> Series_sum vs = 0%float.
Proof.
  intros Hall. unfold Series_sum, nansum.
  assert (Hz : Forall (fun v => v = 0%float)
                 (map (fun v => if null float64_arith v
                                then zero float64_arith else v) vs)).
  { apply Forall_forall. intros x Hx.
    apply list_elem_of_In, in_map_iff in Hx as (v & <- & Hv).
    apply list_elem_of_In in Hv.
    rewrite Forall_forall in Hall. simpl. rewrite (Hall v Hv). reflexivity. }
  destruct (map _ vs) as [|z l] eqn:Hf; [reflexivity|].
  unfold ndarray_sum. rewrite pairwise_sum_zeros; [vm_compute; reflexivity| |];
    [discriminate|exact Hz].
Qed.

Lemma kahan_all_null (vs : list float64) (st : float64 * float64) :
  Forall (fun v => isna v = true) vs ->
  fold_left (kahan_step float64_arith) vs st = st.
Proof.
  intros Hall. revert st.
  induction Hall as [|v vs Hv _ IH]; intros [s c]; [reflexivity|].
  cbn [fold_left]. unfold kahan_step at 2. simpl. rewrite Hv. apply IH.
Qed.

(** So does a group without a non-null value. *)
Lemma group_sum_all_null (vs : list float64) :
  Forall (fun v => isna v = true) vs ->
  group_sum float64_arith vs = 0%float.
Proof.
  intros Hall. unfold group_sum. rewrite kahan_all_null by exact Hall.
  reflexivity.
Qed.


Lemma NaN_is_not_zero : NaN <> 0%float.
Proof.
  intros H. apply (f_equal isna) in H. vm_compute in H. discriminate.
Qed.

(** C4: when the filter leaves no row, the four KPIs are defined: total
    sales is 0, unique orders is 0, average order value and loyalty ratio
    are NaN, and NaN is not 0. *)
Theorem empty_table_kpis (df : DataFrame) (f : FilterSpec) :
  apply_filters df f = [] ->
  total_sales (apply_filters df f) = 0%float
  /\ unique_orders (apply_filters df f) = 0%nat
  /\ avg_order_value (apply_filters df f) = NaN
  /\ loyalty_ratio (apply_filters df f) = NaN
  /\ isna NaN = true
  /\ NaN <> 0%float.
Proof.
  intros ->. repeat split; try (vm_compute; reflexivity).
  apply NaN_is_not_zero.
Qed.

Lemma empty_table_kpis_witness :
  apply_filters three_rows (only_department "Bakery") = []
  /\ total_sales (apply_filters three_rows (only_department "Bakery"))
     = 0%float
  /\ unique_orders (apply_filters three_rows (only_department "Bakery"))
     = 0%nat
  /\ avg_order_value (apply_filters three_rows (only_department "Bakery"))
     = NaN
  /\ loyalty_ratio (apply_filters three_rows (only_department "Bakery"))
     = NaN.
Proof.
  assert (H : apply_filters three_rows (only_department "Bakery") = [])
    by (vm_compute; reflexivity).
  split; [exact H|].
  destruct (empty_table_kpis three_rows (only_department "Bakery") H)
    as (H1 & H2 & H3 & H4 & _).
  repeat split; assumption.
Defined.

Lemma partition_addends (p : Row -> bool) (df : DataFrame) :
  Permutation
    (dropna (map line_value_aed df))
    (dropna (map line_value_aed (List.filter p df))
     ++ dropna (map line_value_aed (List.filter (fun r => negb (p r)) df))).
Proof.
  induction df as [|r df IH]; simpl; [constructor|].
  destruct (p r); simpl; destruct (notna (line_value_aed r)); simpl;
    try exact IH.
  - constructor. exact IH.
  - apply Permutation_cons_app. exact IH.
Qed.

Lemma partition_length {A} (p : A -> bool) (l : list A) :
  length l
  = (length (List.filter p l)
     + length (List.filter (fun x => negb (p x)) l))%nat.
Proof.
  induction l as [|x l IH]; simpl; [reflexivity|].
  destruct (p x); simpl; lia.
Qed.



(** ** Sorting *)

Lemma SFcompare_antisym (a b : spec_float) :
  SFcompare b a = option_map CompOpp (SFcompare a b).
Proof.
  destruct a as [sa|sa| |sa ma ea], b as [sb|sb| |sb mb eb]; simpl;
    try reflexivity;
    try (destruct sa; reflexivity); try (destruct sb; reflexivity);
    try (destruct sa, sb; reflexivity).
  destruct sa, sb; simpl; try reflexivity;
    rewrite (Z.compare_antisym ea eb);
    destruct (ea ?= eb) eqn:He; simpl; try reflexivity.
  - rewrite CompOpp_involutive. f_equal.
    exact (Pos.compare_cont_antisym mb ma Eq).
  - f_equal. exact (eq_sym (Pos.compare_cont_antisym ma mb Eq)).
Qed.

(** Two numbers that are not null compare one way or the other. *)
Lemma leb_total (x y : float64) :
  isna x = false -> isna y = false ->
  (y <=? x)%float = false -> (x <=? y)%float = true.
Proof.
  unfold isna, PrimFloat.is_nan.
  rewrite !FloatAxioms.eqb_spec, !FloatAxioms.leb_spec.
  unfold SFeqb, SFleb.
  rewrite (SFcompare_antisym (Prim2SF y) (Prim2SF x)).
  destruct (SFcompare (Prim2SF x) (Prim2SF x)) as [[]|] eqn:Hxx;
    try discriminate.
  destruct (SFcompare (Prim2SF y) (Prim2SF y)) as [[]|] eqn:Hyy;
    try discriminate.
  intros _ _.
  destruct (SFcompare (Prim2SF y) (Prim2SF x)) as [[]|] eqn:Hc; simpl;
    try discriminate; try reflexivity.
  intros _. destruct (Prim2SF x), (Prim2SF y); simpl in *; discriminate.
Qed.

Lemma precedes_total (x y : float64) :
  precedes x y = false -> precedes y x = true.
Proof.
  unfold precedes. intros H. apply orb_false_iff in H as [Hy Hle].
  destruct (isna x) eqn:Hx; simpl; [reflexivity|].
  apply leb_total; assumption.
Qed.

Section Insertion.
Context {K : Type}.
Implicit Types (a b : K * float64) (s : list (K * float64)).

Lemma insert_before_ties_perm a s :
  Permutation (insert_before_ties a s) (a :: s).
Proof.
  induction s as [|b s IH]; simpl; [reflexivity|].
  destruct (precedes (snd a) (snd b)); [reflexivity|].
  rewrite IH. apply perm_swap.
Qed.

Lemma insert_after_ties_perm a s :
  Permutation (insert_after_ties a s) (a :: s).
Proof.
  induction s as [|b s IH]; simpl; [reflexivity|].
  destruct (precedes (snd b) (snd a)); [|reflexivity].
  rewrite IH. apply perm_swap.
Qed.

Lemma insert_before_ties_hd a b s :
  descending b a -> HdRel descending b s ->
  HdRel descending b (insert_before_ties a s).
Proof.
  intros Hba Hbs. destruct s as [|c s]; simpl; [constructor; exact Hba|].
  destruct (precedes (snd a) (snd c)); constructor; [exact Hba|].
  inversion Hbs; assumption.
Qed.

Lemma insert_after_ties_hd a b s :
  descending b a -> HdRel descending b s ->
  HdRel descending b (insert_after_ties a s).
Proof.
  intros Hba Hbs. destruct s as [|c s]; simpl; [constructor; exact Hba|].
  destruct (precedes (snd c) (snd a)); constructor; [|exact Hba].
  inversion Hbs; assumption.
Qed.

Lemma insert_before_ties_sorted a s :
  Sorted descending s -> Sorted descending (insert_before_ties a s).
Proof.
  induction 1 as [|b s Hs IH Hb]; simpl; [repeat constructor|].
  destruct (precedes (snd a) (snd b)) eqn:Hab.
  - constructor; [constructor; assumption|constructor; exact Hab].
  - constructor; [exact IH|].
    apply insert_before_ties_hd; [|exact Hb].
    apply precedes_total, Hab.
Qed.

Lemma insert_after_ties_sorted a s :
  Sorted descending s -> Sorted descending (insert_after_ties a s).
Proof.
  induction 1 as [|b s Hs IH Hb]; simpl; [repeat constructor|].
  destruct (precedes (snd b) (snd a)) eqn:Hba.
  - constructor; [exact IH|].
    apply insert_after_ties_hd; [exact Hba|exact Hb].
  - constructor; [constructor; assumption|constructor].
    apply precedes_total, Hba.
Qed.

End Insertion.

Lemma stable_sort_conforms : sorts_descending stable_sort.
Proof.
  intros K s. unfold stable_sort. induction s as [|a s [IHp IHs]]; simpl.
  - split; constructor.
  - split.
    + eapply Permutation_trans; [apply insert_before_ties_perm|].
      constructor. exact IHp.
    + apply insert_before_ties_sorted, IHs.
Qed.

Lemma reversing_sort_conforms : sorts_descending reversing_sort.
Proof.
  intros K s. unfold reversing_sort. induction s as [|a s [IHp IHs]]; simpl.
  - split; constructor.
  - split.
    + eapply Permutation_trans; [apply insert_after_ties_perm|].
      constructor. exact IHp.
    + apply insert_after_ties_sorted, IHs.
Qed.

(** ** Groups *)

Lemma elem_of_insert_key {K} `{EqDecision K} (ltb : K -> K -> bool)
    (k x : K) (ks : list K) :
  x ∈ insert_key ltb k ks <-> x = k \/ x ∈ ks.
Proof.
  induction ks as [|k' ks IH]; simpl.
  - rewrite list_elem_of_singleton, elem_of_nil. tauto.
  - destruct (decide (k = k')) as [->|Hne].
    + rewrite elem_of_cons. tauto.
    + destruct (ltb k k'); rewrite !elem_of_cons; [tauto|].
      rewrite IH. tauto.
Qed.

Lemma elem_of_sorted_keys {K} `{EqDecision K} (ltb : K -> K -> bool)
    (x : K) (ks : list K) :
  x ∈ sorted_keys ltb ks <-> x ∈ ks.
Proof.
  unfold sorted_keys. induction ks as [|k ks IH]; simpl; [reflexivity|].
  rewrite elem_of_insert_key, elem_of_cons, IH. reflexivity.
Qed.

Lemma ltb_negb_leb (a b : string) :
  String.ltb a b = negb (String.leb b a).
Proof.
  unfold String.ltb, String.leb. rewrite (String.compare_antisym b a).
  destruct (String.compare a b); reflexivity.
Qed.

Lemma ltb_total (a b : string) :
  a <> b -> String.ltb a b = false -> String.ltb b a = true.
Proof.
  rewrite !ltb_negb_leb. intros Hne Hba.
  apply negb_false_iff in Hba. apply negb_true_iff.
  destruct (String.leb a b) eqn:Hab; [|reflexivity].
  exfalso. apply Hne. apply String.leb_antisym; assumption.
Qed.

#[local] Instance ascending_trans : Transitive ascending.
Proof.
  intros a b c. unfold ascending. rewrite !ltb_negb_leb, !negb_true_iff.
  intros Hba Hcb. destruct (String.leb c a) eqn:Hca; [|reflexivity].
  assert (Hbc : String.leb b c = true).
  { destruct (String.leb_total b c) as [H|H]; [exact H|congruence]. }
  assert (Hle : String.le b a).
  { transitivity c; unfold String.le; [rewrite Hbc|rewrite Hca]; exact I. }
  unfold String.le in Hle. rewrite Hba in Hle. destruct Hle.
Qed.

Lemma insert_key_hd (k x : string) (ks : list string) :
  ascending x k -> HdRel ascending x ks ->
  HdRel ascending x (insert_key String.ltb k ks).
Proof.
  intros Hxk Hx. destruct ks as [|k' ks]; simpl; [constructor; exact Hxk|].
  destruct (decide (k = k')); [exact Hx|].
  destruct (String.ltb k k'); constructor; [exact Hxk|].
  inversion Hx; assumption.
Qed.

Lemma insert_key_sorted (k : string) (ks : list string) :
  Sorted ascending ks -> Sorted ascending (insert_key String.ltb k ks).
Proof.
  induction 1 as [|k' ks Hks IH Hhd]; simpl; [repeat constructor|].
  destruct (decide (k = k')) as [->|Hne]; [constructor; assumption|].
  destruct (String.ltb k k') eqn:Hlt.
  - constructor; [constructor; assumption|constructor; exact Hlt].
  - constructor; [exact IH|].
    apply insert_key_hd; [|exact Hhd]. apply ltb_total; assumption.
Qed.

(** The keys of the groups ascend strictly, so no key comes twice. *)
Lemma sorted_keys_ascending (ks : list string) :
  StronglySorted ascending (sorted_keys String.ltb ks).
Proof.
  apply Sorted_StronglySorted; [exact ascending_trans|].
  unfold sorted_keys. induction ks as [|k ks IH]; simpl; [constructor|].
  apply insert_key_sorted, IH.
Qed.

Lemma groupby_keys_ascending (key : Row -> option string) (df : DataFrame) :
  StronglySorted ascending (map fst (groupby String.ltb key df)).
Proof.
  unfold groupby. rewrite map_map. simpl. rewrite map_id.
  apply sorted_keys_ascending.
Qed.

Lemma ascending_NoDup (ks : list string) :
  StronglySorted ascending ks -> NoDup ks.
Proof.
  induction 1 as [|k ks Hks IH Hall]; constructor; [|exact IH].
  intros Hin. rewrite Forall_forall in Hall. specialize (Hall k Hin).
  unfold ascending in Hall. rewrite ltb_negb_leb in Hall.
  assert (Hrefl : String.le k k) by reflexivity.
  unfold String.le in Hrefl. destruct (String.leb k k); [discriminate|].
  destruct Hrefl.
Qed.

Lemma groupby_keys_NoDup (key : Row -> option string) (df : DataFrame) :
  NoDup (map fst (groupby String.ltb key df)).
Proof. apply ascending_NoDup, groupby_keys_ascending. Qed.

(** A key has a group exactly when some row carries it. *)
Lemma groupby_has_key {K} `{EqDecision K} (ltb : K -> K -> bool)
    (key : Row -> option K) (df : DataFrame) (k : K) :
  k ∈ map fst (groupby ltb key df) <-> exists r, r ∈ df /\ key r = Some k.
Proof.
  unfold groupby. rewrite map_map. simpl. rewrite map_id.
  rewrite elem_of_sorted_keys. apply list_elem_of_omap.
Qed.

(** ** Top-N tables *)

Lemma Sorted_take {A} (R : A -> A -> Prop) (n : nat) (l : list A) :
  Sorted R l -> Sorted R (take n l).
Proof.
  intros Hl. revert n. induction Hl as [|a l Hl IH Ha]; intros [|n]; simpl;
    try constructor.
  - apply IH.
  - destruct Ha as [|b l Hab]; destruct n; simpl; constructor. exact Hab.
Qed.

Lemma groupby_sum_value {K} `{EqDecision K} (ltb : K -> K -> bool)
    (key : Row -> option K) (df : DataFrame) (k : K) (v : float64) :
  (k, v) ∈ groupby_sum ltb key df ->
  v = group_sum float64_arith (map line_value_aed (group_rows key k df)).
Proof.
  unfold groupby_sum, groupby. rewrite map_map. simpl.
  intros Hin. apply list_elem_of_In, List.in_map_iff in Hin.
  destruct Hin as (k' & Heq & _). injection Heq as <- <-. reflexivity.
Qed.

Lemma head_sorted_top_n {K} `{EqDecision K} (kind : Sorter) (n : nat)
    (ltb : K -> K -> bool) (key : Row -> option K) (df : DataFrame) :
  sorts_descending kind ->
  top_n_ok n ltb key df
    (head n (sort_values_desc kind (groupby_sum ltb key df))).
Proof.
  intros Hkind. unfold head, sort_values_desc.
  destruct (Hkind K (groupby_sum ltb key df)) as [Hperm Hsorted].
  split; [|split; [|split]].
  - rewrite length_take. lia.
  - apply Sorted_take, Hsorted.
  - eexists. split; [exact Hperm|]. split; [exact Hsorted|reflexivity].
  - intros k v Hin. apply (groupby_sum_value ltb key).
    apply (elem_of_Permutation_proper _ _ _ Hperm).
    apply elem_of_take in Hin as (i & Hi & _).
    eapply list_elem_of_lookup_2; exact Hi.
Qed.

(** ** Orders by day of week *)

Lemma series_get_map {V} (f : string -> V) (d : string) (ks : list string) :
  series_get d (map (fun k => (k, f k)) ks)
  = if decide (d ∈ ks) then Some (f d) else None.
Proof.
  induction ks as [|k ks IH]; simpl.
  - destruct (decide (d ∈ [])) as [Hin|_]; [|reflexivity].
    apply elem_of_nil in Hin. contradiction.
  - destruct (String.eqb_spec k d) as [->|Hne].
    + rewrite decide_True by apply list_elem_of_here. reflexivity.
    + rewrite IH. destruct (decide (d ∈ ks)) as [Hin|Hnin].
      * rewrite decide_True by (apply list_elem_of_further, Hin). reflexivity.
      * rewrite decide_False; [reflexivity|].
        rewrite elem_of_cons. intros [->|Hin]; contradiction.
Qed.

Lemma group_rows_nil {K} `{EqDecision K} (key : Row -> option K) (k : K)
    (df : DataFrame) :
  group_rows key k df = [] <-> k ∉ omap key df.
Proof.
  unfold group_rows. rewrite list_elem_of_omap. split.
  - intros Hnil (r & Hr & Hk).
    assert (Hin : In r (List.filter
                          (fun r => bool_decide (key r = Some k)) df)).
    { apply List.filter_In. split; [apply list_elem_of_In, Hr|].
      apply bool_decide_eq_true_2, Hk. }
    rewrite Hnil in Hin. destruct Hin.
  - intros Hno. induction df as [|r df IH]; simpl; [reflexivity|].
    destruct (bool_decide (key r = Some k)) eqn:Hk.
    + exfalso. apply Hno. exists r. split; [apply list_elem_of_here|].
      eapply bool_decide_eq_true_1, Hk.
    + apply IH. intros (r' & Hr' & Hk'). apply Hno. exists r'.
      split; [apply list_elem_of_further, Hr'|exact Hk'].
Qed.

Lemma groupby_nunique_get (d : string) (df : DataFrame) :
  series_get d (groupby_nunique String.ltb day_of_week df) = dow_entry d df.
Proof.
  unfold groupby_nunique, groupby. rewrite map_map. simpl.
  rewrite (series_get_map
             (fun k => nunique (map order_id (group_rows day_of_week k df)))).
  unfold dow_entry, rows_on.
  destruct (decide (d ∈ sorted_keys String.ltb (omap day_of_week df)))
    as [Hin|Hnin].
  - apply elem_of_sorted_keys in Hin.
    destruct (group_rows day_of_week d df) eqn:Hg; [|reflexivity].
    apply group_rows_nil in Hg. contradiction.
  - rewrite elem_of_sorted_keys in Hnin.
    apply group_rows_nil in Hnin. rewrite Hnin. reflexivity.
Qed.

(** C7, as the code has it: the series has the seven days, Monday to
    Sunday, each once and in that order; a day with rows holds the number
    of its distinct orders, and a day without rows holds a null. *)
Theorem dow_seven_days (df : DataFrame) :
  map fst (plot_dow df) = DAYS
  /\ Forall (fun d => series_get d (plot_dow df) = Some (dow_entry d df)) DAYS
  /\ (forall d, Forall (fun r => day_of_week r <> Some d) df ->
                dow_entry d df = None).
Proof.
  split; [reflexivity|]. split.
  - unfold plot_dow, reindex, DAYS.
    repeat constructor; simpl; rewrite groupby_nunique_get; reflexivity.
  - intros d Hd. unfold dow_entry, rows_on.
    replace (group_rows day_of_week d df) with (@nil Row); [reflexivity|].
    symmetry. apply group_rows_nil. rewrite list_elem_of_omap.
    intros (r & Hr & Hk). rewrite Forall_forall in Hd.
    exact (Hd r Hr Hk).
Qed.

(** C7 fails on the count of a missing day: without a Sunday order the
    Sunday entry is a null, not 0. *)
Lemma dow_missing_day_not_zero :
  ~ (forall df : DataFrame,
       Forall (fun r => day_of_week r <> Some "Sunday") df ->
       series_get "Sunday" (plot_dow df) = Some (Some 0%nat)).
Proof.
  intros H.
  assert (Hno : Forall (fun r => day_of_week r <> Some "Sunday") no_sunday)
    by (unfold no_sunday; repeat constructor; discriminate).
  specialize (H no_sunday Hno).
  assert (Hs : series_get "Sunday" (plot_dow no_sunday) = Some None)
    by (vm_compute; reflexivity).
  rewrite Hs in H. discriminate H.
Qed.

(** ** The loader *)

Lemma NaN_isna : isna NaN = true.
Proof. vm_compute. reflexivity. Qed.

Lemma load_row_loaded (R : Readers) (c : CsvRow) (dt m : option Timestamp) :
  loaded R c (load_row R c dt m).
Proof.
  unfold loaded, coerced_number, retained; simpl.
  repeat split.
  - destruct (csv_line_value_aed c) as [s|]; simpl; [|apply NaN_isna].
    destruct (read_number R s); simpl; [reflexivity|apply NaN_isna].
  - destruct (csv_quantity c) as [s|]; simpl; [|apply NaN_isna].
    destruct (read_number R s); simpl; [reflexivity|apply NaN_isna].
Qed.

Lemma zip_with_loaded (R : Readers) (lines : list CsvRow) :
  forall dts months : list (option Timestamp),
    length dts = length lines -> length months = length lines ->
    let df := zip_with (fun c cells => load_row R c (fst cells) (snd cells))
                       lines (zip dts months) in
    Forall2 (loaded R) lines df
    /\ map order_datetime df = dts
    /\ map order_month_dt df = months.
Proof.
  induction lines as [|c lines IH]; intros [|dt dts] [|m months] Hd Hm;
    simpl in Hd, Hm; try discriminate.
  - simpl. repeat split. constructor.
  - destruct (IH dts months) as (H1 & H2 & H3); [lia|lia|].
    simpl. repeat split.
    + constructor; [apply load_row_loaded|exact H1].
    + f_equal. exact H2.
    + f_equal. exact H3.
Qed.

(** What [load_data] answers, by its lines. *)
Lemma load_data_Ok (R : Readers) (file : CsvFile) (df : DataFrame) :
  load_data R file = Ok df ->
  exists dts,
    parse_dates R (map csv_order_datetime (csv_lines file)) = Some dts
    /\ df = zip_with (fun c cells => load_row R c (fst cells) (snd cells))
                     (csv_lines file)
                     (zip dts (to_datetime_coerce R
                                 (map csv_order_month (csv_lines file)))).
Proof.
  unfold load_data.
  destruct (bool_decide ("order_datetime" ∈ csv_columns file)); simpl;
    [|discriminate].
  destruct (getitem_name "order_month" (map strip (csv_columns file)))
    as [[|]|]; try discriminate.
  destruct (getitem_name "order_datetime" (map strip (csv_columns file)))
    as [[|]|]; try discriminate.
  destruct (parse_dates R (map csv_order_datetime (csv_lines file)))
    as [dts|]; [|discriminate].
  destruct (getitem_name "line_value_aed" (map strip (csv_columns file)))
    as [[|]|]; try discriminate.
  destruct (getitem_name "quantity" (map strip (csv_columns file)))
    as [[|]|]; try discriminate.
  intros [= <-]. exists dts. split; reflexivity.
Qed.

Lemma parse_dates_Some (R : Readers) (col : list (option string))
    (dts : list (option Timestamp)) :
  parse_dates R col = Some dts -> col <> [] /\ read_datetimes R col = Some dts.
Proof.
  destruct col; simpl; [discriminate|]. intros H. split; [discriminate|exact H].
Qed.

Lemma load_data_length (R : Readers) (file : CsvFile) (df : DataFrame) :
  conforming R -> load_data R file = Ok df ->
  length df = length (csv_lines file).
Proof.
  intros [Hd Hm] Hload.
  destruct (load_data_Ok R file df Hload) as (dts & Hdts & ->).
  apply parse_dates_Some in Hdts as [_ Hdts]. apply Hd in Hdts.
  rewrite length_zip_with, length_zip, Hdts, Hm, !length_map. lia.
Qed.

(** A column [read_csv] found under its exact name is there after the
    names are stripped. *)
Lemma getitem_name_present (name : string) (columns : list string) :
  name ∈ columns -> strip name = name ->
  getitem_name name (map strip columns) = Ok Column
  \/ getitem_name name (map strip columns) = Ok Frame.
Proof.
  intros Hin Hname. unfold getitem_name.
  destruct (List.filter (String.eqb name) (map strip columns))
    as [|c [|c' l]] eqn:Hf; [|left; reflexivity|right; reflexivity].
  assert (H : In name (List.filter (String.eqb name) (map strip columns))).
  { apply List.filter_In. split; [|apply String.eqb_refl].
    apply list_elem_of_In, list_elem_of_fmap. exists name.
    split; [symmetry; exact Hname|exact Hin]. }
  rewrite Hf in H. destruct H.
Qed.

(** When [read_csv] left [order_datetime] as text, line 18 raises. *)
Lemma load_data_text_datetime (R : Readers) (file : CsvFile) :
  "order_datetime" ∈ csv_columns file ->
  getitem_name "order_month" (map strip (csv_columns file)) = Ok Column ->
  parse_dates R (map csv_order_datetime (csv_lines file)) = None ->
  load_data R file = Raise AttributeError.
Proof.
  intros H1 H2 Hcol. unfold load_data. rewrite Hcol, H2.
  rewrite (bool_decide_eq_true_2 _ H1). simpl.
  destruct (getitem_name_present "order_datetime" (csv_columns file) H1
              eq_refl) as [-> | ->]; reflexivity.
Qed.

(** A file with a header and no data line does not load. *)
Lemma load_data_no_lines (R : Readers) (columns : list string) :
  "order_datetime" ∈ columns ->
  getitem_name "order_month" (map strip columns) = Ok Column ->
  load_data R {| csv_columns := columns; csv_lines := [] |}
  = Raise AttributeError.
Proof.
  intros H1 H2. apply load_data_text_datetime; [exact H1|exact H2|].
  reflexivity.
Qed.

(** C8: a malformed [order_datetime] cell makes the loader raise.  When
    the header has the columns the loader names and [read_csv] left the
    [order_datetime] column as text, line 18 raises [AttributeError] and
    no table is returned, whatever the other cells hold. *)
Theorem load_data_raises_on_text_datetime (R : Readers) (file : CsvFile) :
  "order_datetime" ∈ csv_columns file ->
  getitem_name "order_month" (map strip (csv_columns file)) = Ok Column ->
  parse_dates R (map csv_order_datetime (csv_lines file)) = None ->
  load_data R file = Raise AttributeError.
Proof. apply load_data_text_datetime. Qed.

Lemma load_data_raises_on_text_datetime_witness :
  "order_datetime" ∈ csv_columns malformed_datetime
  /\ getitem_name "order_month" (map strip (csv_columns malformed_datetime))
     = Ok Column
  /\ parse_dates fragment_readers
       (map csv_order_datetime (csv_lines malformed_datetime)) = None
  /\ load_data fragment_readers malformed_datetime = Raise AttributeError.
Proof.
  assert (H1 : "order_datetime" ∈ csv_columns malformed_datetime)
    by (apply (bool_decide_eq_true_1 (_ ∈ _)); vm_compute; reflexivity).
  assert (H2 : getitem_name "order_month"
                 (map strip (csv_columns malformed_datetime)) = Ok Column)
    by (vm_compute; reflexivity).
  assert (H3 : parse_dates fragment_readers
                 (map csv_order_datetime (csv_lines malformed_datetime))
               = None) by (vm_compute; reflexivity).
  split; [exact H1|]. split; [exact H2|]. split; [exact H3|].
  exact (load_data_raises_on_text_datetime fragment_readers
           malformed_datetime H1 H2 H3).
Defined.

(** ** The export *)

Lemma COLUMNS_loadable :
  "order_datetime" ∈ COLUMNS
  /\ getitem_name "order_month" (map strip COLUMNS) = Ok Column.
Proof.
  split; [|vm_compute; reflexivity].
  apply (bool_decide_eq_true_1 (_ ∈ _)); vm_compute; reflexivity.
Qed.

(** C9: the export of an empty filtered table does not load again.  The
    file written for a table without rows is a header without data lines,
    on which [read_csv] converts no column and line 18 raises
    [AttributeError]; so does the export of the three-row data set under
    department = Bakery.  Whenever the export of a table does load again,
    the reloaded table has as many rows as the exported one. *)
Theorem export_of_empty_table_does_not_load :
  (forall (R : Readers) (W : Writers) (df : DataFrame) (f : FilterSpec),
     apply_filters df f = [] ->
     load_data R (to_csv W (apply_filters df f)) = Raise AttributeError)
  /\ (forall (R : Readers) (W : Writers),
        load_data R
          (to_csv W (apply_filters three_rows (only_department "Bakery")))
        = Raise AttributeError)
  /\ (forall (R : Readers) (W : Writers) (t t' : DataFrame),
        conforming R -> load_data R (to_csv W t) = Ok t' ->
        length t' = length t).
Proof.
  destruct COLUMNS_loadable as [H1 H2].
  assert (Hempty : forall R W, load_data R (to_csv W []) = Raise AttributeError).
  { intros R W. apply (load_data_no_lines R COLUMNS H1 H2). }
  split; [|split].
  - intros R W df f ->. apply Hempty.
  - intros R W.
    replace (apply_filters three_rows (only_department "Bakery"))
      with (@nil Row) by (vm_compute; reflexivity).
    apply Hempty.
  - intros R W t t' HR Hload.
    rewrite (load_data_length R _ _ HR Hload). simpl. apply length_map.
Qed.

(** ** The loaded table is not written to *)

Lemma Py_bind_ok {A B} (c : Py A) (k : A -> Py B) (h h' : Store) (a : A) :
  c h = Ok (a, h') -> (c ≫= k) h = k a h'.
Proof.
  intros Hc. unfold mbind, Py_mbind, Py_bind. rewrite Hc. reflexivity.
Qed.

(** A step that builds a table from the rows of [o] leaves every object of
    the store as it was and returns an object that was not there. *)
Lemma getitem_step (h0 h : Store) (df o : obj) (rows : DataFrame)
    (mask : Row -> bool) :
  h0 ⊆ h -> is_Some (h0 !! df) -> h !! o = Some rows ->
  exists o' h',
    DataFrame_getitem o mask h = Ok (o', h')
    /\ h0 ⊆ h' /\ h' !! o' = Some (getitem_mask mask rows) /\ o' <> df.
Proof.
  intros Hsub [t Hdf] Ho.
  pose proof (is_fresh (dom h)) as Hfresh.
  exists (fresh (dom h)), (<[fresh (dom h) := getitem_mask mask rows]> h).
  split; [|split; [|split]].
  - unfold DataFrame_getitem, mbind, Py_mbind, Py_bind, rows_of.
    rewrite Ho. reflexivity.
  - etrans; [exact Hsub|]. apply insert_subseteq.
    apply not_elem_of_dom. exact Hfresh.
  - apply lookup_insert_eq.
  - intros Heq. apply Hfresh. rewrite Heq.
    apply elem_of_dom. exists t. eapply lookup_weaken; eassumption.
Qed.

Lemma copy_step (h : Store) (df : obj) (t : DataFrame) :
  h !! df = Some t ->
  exists o' h',
    DataFrame_copy df h = Ok (o', h')
    /\ h ⊆ h' /\ h' !! o' = Some t /\ o' <> df.
Proof.
  intros Hdf. pose proof (is_fresh (dom h)) as Hfresh.
  exists (fresh (dom h)), (<[fresh (dom h) := t]> h).
  split; [|split; [|split]].
  - unfold DataFrame_copy, mbind, Py_mbind, Py_bind, rows_of.
    rewrite Hdf. reflexivity.
  - apply insert_subseteq, not_elem_of_dom. exact Hfresh.
  - apply lookup_insert_eq.
  - intros Heq. apply Hfresh. rewrite Heq. apply elem_of_dom. eauto.
Qed.

Lemma optional_step (b : bool) (h0 h : Store) (df o : obj)
    (rows : DataFrame) (mask : Row -> bool) :
  h0 ⊆ h -> is_Some (h0 !! df) -> h !! o = Some rows -> o <> df ->
  exists o' h',
    (if b then DataFrame_getitem o mask else Py_ret o) h = Ok (o', h')
    /\ h0 ⊆ h'
    /\ h' !! o' = Some (if b then getitem_mask mask rows else rows)
    /\ o' <> df.
Proof.
  intros Hsub Hdf Ho Hne. destruct b.
  - apply getitem_step; assumption.
  - exists o, h. auto.
Qed.

Lemma filter_block_spec (h : Store) (df : obj) (f : FilterSpec)
    (t : DataFrame) :
  h !! df = Some t ->
  exists df_filtered h',
    filter_block df f h = Ok (df_filtered, h')
    /\ h ⊆ h'
    /\ h' !! df_filtered = Some (apply_filters t f)
    /\ df_filtered <> df.
Proof.
  intros Hdf. assert (Hsome : is_Some (h !! df)) by eauto.
  unfold filter_block, apply_filters.
  destruct (copy_step h df t Hdf) as (o1 & h1 & E1 & S1 & L1 & N1).
  rewrite (Py_bind_ok _ _ _ _ _ E1).
  destruct (optional_step (negb (String.eqb (sel_department f) ALL))
              h h1 df o1 t (col_eq department (sel_department f))
              S1 Hsome L1 N1) as (o2 & h2 & E2 & S2 & L2 & N2).
  rewrite (Py_bind_ok _ _ _ _ _ E2).
  destruct (optional_step (negb (String.eqb (sel_category f) ALL))
              h h2 df o2 _ (col_eq category (sel_category f))
              S2 Hsome L2 N2) as (o3 & h3 & E3 & S3 & L3 & N3).
  rewrite (Py_bind_ok _ _ _ _ _ E3).
  destruct (optional_step (negb (String.eqb (sel_nationality f) ALL))
              h h3 df o3 _ (col_eq nationality_group (sel_nationality f))
              S3 Hsome L3 N3) as (o4 & h4 & E4 & S4 & L4 & N4).
  rewrite (Py_bind_ok _ _ _ _ _ E4).
  destruct (getitem_step h h4 df o4 _
              (age_between (age_min f) (age_max f)) S4 Hsome L4)
    as (o5 & h5 & E5 & S5 & L5 & N5).
  rewrite (Py_bind_ok _ _ _ _ _ E5).
  destruct (optional_step (negb (String.eqb (sel_month f) ALL))
              h h5 df o5 _ (col_eq order_month (sel_month f))
              S5 Hsome L5 N5) as (o6 & h6 & E6 & S6 & L6 & N6).
  rewrite (Py_bind_ok _ _ _ _ _ E6).
  exists o6, h6. split; [reflexivity|]. split; [exact S6|].
  split; [exact L6|exact N6].
Qed.

(** C10: one run of the script, from any store in which [df] is bound to
    the loaded table, ends with [df] bound to the same rows; the filtered
    table is another object, it holds the filtered rows, and every object
    of the store holds the rows it held before. *)
Theorem loaded_table_unchanged (kind : Sorter) (h : Store) (df : obj)
    (f : FilterSpec) (t : DataFrame) :
  h !! df = Some t ->
  exists df_filtered out h',
    script kind df f h = Ok ((df_filtered, out), h')
    /\ h' !! df = Some t
    /\ df_filtered <> df
    /\ h' !! df_filtered = Some (apply_filters t f)
    /\ (forall o t0, h !! o = Some t0 -> h' !! o = Some t0).
Proof.
  intros Hdf.
  destruct (filter_block_spec h df f t Hdf) as (o & h' & E & S & L & N).
  unfold script. rewrite (Py_bind_ok _ _ _ _ _ E).
  unfold aggregations.
  assert (Er : rows_of o h' = Ok (apply_filters t f, h'))
    by (unfold rows_of; rewrite L; reflexivity).
  rewrite (Py_bind_ok _ _ _ _ _ (Py_bind_ok _ _ _ _ _ Er)).
  eexists o, _, h'. split; [reflexivity|].
  split; [eapply lookup_weaken; eassumption|].
  split; [exact N|]. split; [exact L|].
  intros o0 t0 H0. eapply lookup_weaken; eassumption.
Qed.

Lemma loaded_table_unchanged_witness :
  exists df_filtered out h',
    script stable_sort 1%positive (only_department "Grocery")
      {[ 1%positive := three_rows ]}
    = Ok ((df_filtered, out), h')
    /\ h' !! 1%positive = Some three_rows
    /\ df_filtered <> 1%positive
    /\ h' !! df_filtered
       = Some (apply_filters three_rows (only_department "Grocery"))
    /\ (forall o t0,
          ({[ 1%positive := three_rows ]} : Store) !! o = Some t0 ->
          h' !! o = Some t0).
Proof.
  apply (loaded_table_unchanged stable_sort {[ 1%positive := three_rows ]}
           1%positive (only_department "Grocery") three_rows).
  apply lookup_singleton_eq.
Defined.

(** * More of the script *)

(** ** Filters: composition, refinement and bounds *)

(** Filtering by [f] and then by [g] keeps the rows that satisfy both, so
    the two filters can be applied in either order. *)
Theorem filters_commute (df : DataFrame) (f g : FilterSpec) :
  apply_filters (apply_filters df f) g
  = List.filter (fun r => satisfies f r && satisfies g r) df
  /\ apply_filters (apply_filters df f) g
     = apply_filters (apply_filters df g) f.
Proof.
  rewrite !apply_filters_spec, !filter_filter_andb. split; [reflexivity|].
  apply List.filter_ext. intros r. apply andb_comm.
Qed.

Lemma refines_satisfies (g f : FilterSpec) (r : Row) :
  refines g f -> satisfies g r = true -> satisfies f r = true.
Proof.
  intros (Hd & Hc & Hn & Hlo & Hhi & Hm). rewrite !satisfies_iff.
  intros (Gd & Gc & Gn & (a & Ha & Hage) & Gm).
  assert (Hbox : forall sel_g sel_f cell,
            box_refines sel_g sel_f -> exact_match sel_g cell ->
            exact_match sel_f cell).
  { unfold box_refines, exact_match. intros sg sf cell [->| <-] Hx Hne.
    - contradiction.
    - apply Hx, Hne. }
  repeat split; try (eapply Hbox; eassumption).
  exists a. split; [exact Ha|lia].
Qed.

(** Refining a filter only removes rows: the table under [g] is the table
    under [f] filtered by [g], and a sublist of it. *)
Theorem refining_removes_rows (df : DataFrame) (f g : FilterSpec) :
  refines g f ->
  apply_filters df g = apply_filters (apply_filters df f) g
  /\ sublist (apply_filters df g) (apply_filters df f).
Proof.
  intros Href.
  assert (E : apply_filters df g = apply_filters (apply_filters df f) g).
  { rewrite !apply_filters_spec, filter_filter_andb.
    apply List.filter_ext. intros r.
    destruct (satisfies g r) eqn:Hg; [|apply eq_sym, andb_false_r].
    rewrite (refines_satisfies g f r Href Hg). reflexivity. }
  split; [exact E|]. rewrite E, (apply_filters_spec (apply_filters df f)).
  apply filter_sublist.
Qed.

Lemma refining_removes_rows_witness :
  refines ages_30_to_40 ages_20_to_40
  /\ apply_filters four_customers ages_30_to_40
     = apply_filters (apply_filters four_customers ages_20_to_40)
         ages_30_to_40
  /\ sublist (apply_filters four_customers ages_30_to_40)
             (apply_filters four_customers ages_20_to_40).
Proof.
  assert (H : refines ages_30_to_40 ages_20_to_40).
  { unfold refines, box_refines; simpl. repeat split; auto; lia. }
  split; [exact H|].
  exact (refining_removes_rows four_customers ages_20_to_40 ages_30_to_40 H).
Defined.

(** An age range whose lower bound exceeds its upper bound matches no
    row: the table is empty, and nothing is raised or swapped. *)
Theorem inverted_age_range_empty (df : DataFrame) (f : FilterSpec) :
  age_max f < age_min f -> apply_filters df f = [].
Proof.
  intros Hinv. rewrite apply_filters_spec.
  induction df as [|r df IH]; simpl; [reflexivity|].
  destruct (satisfies f r) eqn:Hs; [|exact IH].
  apply satisfies_iff in Hs. destruct Hs as (_ & _ & _ & (a & _ & Ha) & _).
  lia.
Qed.

Lemma inverted_age_range_empty_witness :
  age_max ages_40_to_30 < age_min ages_40_to_30
  /\ apply_filters four_customers ages_40_to_30 = [].
Proof.
  assert (H : age_max ages_40_to_30 < age_min ages_40_to_30)
    by (simpl; lia).
  split; [exact H|].
  exact (inverted_age_range_empty four_customers ages_40_to_30 H).
Defined.

(** ** The sidebar *)

Lemma fold_min_le (vs : list Z) (v : Z) :
  fold_left Z.min vs v <= v /\ Forall (fun x => fold_left Z.min vs v <= x) vs.
Proof.
  revert v. induction vs as [|x vs IH]; intros v; simpl.
  - split; [lia|constructor].
  - destruct (IH (Z.min v x)) as [H1 H2]. split; [lia|].
    constructor; [lia|exact H2].
Qed.

Lemma fold_max_ge (vs : list Z) (v : Z) :
  v <= fold_left Z.max vs v /\ Forall (fun x => x <= fold_left Z.max vs v) vs.
Proof.
  revert v. induction vs as [|x vs IH]; intros v; simpl.
  - split; [lia|constructor].
  - destruct (IH (Z.max v x)) as [H1 H2]. split; [lia|].
    constructor; [lia|exact H2].
Qed.

Lemma fold_min_in (vs : list Z) (v : Z) : fold_left Z.min vs v ∈ v :: vs.
Proof.
  revert v. induction vs as [|x vs IH]; intros v; simpl.
  - apply list_elem_of_here.
  - specialize (IH (Z.min v x)). apply elem_of_cons in IH as [IH|IH].
    + rewrite IH. destruct (Z.min_spec v x) as [[_ ->]|[_ ->]].
      * apply list_elem_of_here.
      * apply list_elem_of_further, list_elem_of_here.
    + do 2 apply list_elem_of_further. exact IH.
Qed.

Lemma fold_max_in (vs : list Z) (v : Z) : fold_left Z.max vs v ∈ v :: vs.
Proof.
  revert v. induction vs as [|x vs IH]; intros v; simpl.
  - apply list_elem_of_here.
  - specialize (IH (Z.max v x)). apply elem_of_cons in IH as [IH|IH].
    + rewrite IH. destruct (Z.max_spec v x) as [[_ ->]|[_ ->]].
      * apply list_elem_of_further, list_elem_of_here.
      * apply list_elem_of_here.
    + do 2 apply list_elem_of_further. exact IH.
Qed.

Lemma Series_min_spec (vs : list Z) (lo : Z) :
  Series_min vs = Some lo -> lo ∈ vs /\ Forall (fun x => lo <= x) vs.
Proof.
  destruct vs as [|v vs]; simpl; [discriminate|]. intros [= <-].
  split; [apply fold_min_in|]. destruct (fold_min_le vs v) as [H1 H2].
  constructor; assumption.
Qed.

Lemma Series_max_spec (vs : list Z) (hi : Z) :
  Series_max vs = Some hi -> hi ∈ vs /\ Forall (fun x => x <= hi) vs.
Proof.
  destruct vs as [|v vs]; simpl; [discriminate|]. intros [= <-].
  split; [apply fold_max_in|]. destruct (fold_max_ge vs v) as [H1 H2].
  constructor; assumption.
Qed.

Lemma age_slider_Some (df : DataFrame) (lo hi : Z) :
  age_slider df = Some (lo, hi) ->
  Series_min (omap age df) = Some lo /\ Series_max (omap age df) = Some hi.
Proof.
  unfold age_slider.
  destruct (Series_min (omap age df)) as [lo'|]; simpl; [|discriminate].
  destruct (Series_max (omap age df)) as [hi'|]; simpl; [|discriminate].
  intros [= <- <-]. split; reflexivity.
Qed.

Lemma age_slider_covers (df : DataFrame) (lo hi : Z) (r : Row) (a : Z) :
  age_slider df = Some (lo, hi) -> r ∈ df -> age r = Some a -> lo <= a <= hi.
Proof.
  intros Hs Hr Ha. apply age_slider_Some in Hs as [Hlo Hhi].
  apply Series_min_spec in Hlo as [_ Hlo].
  apply Series_max_spec in Hhi as [_ Hhi].
  rewrite Forall_forall in Hlo, Hhi.
  assert (Hin : a ∈ omap age df) by (apply list_elem_of_omap; eauto).
  split; [apply Hlo|apply Hhi]; exact Hin.
Qed.

(** The slider bounds are the least and the greatest age of the table,
    each the age of some row, and every age lies between them; the bounds
    cannot be computed exactly when no row has an age. *)
Theorem age_slider_bounds (df : DataFrame) :
  (age_slider df = None <-> Forall (fun r => age r = None) df)
  /\ (forall lo hi, age_slider df = Some (lo, hi) ->
        (exists r, r ∈ df /\ age r = Some lo)
        /\ (exists r, r ∈ df /\ age r = Some hi)
        /\ Forall (fun r => forall a, age r = Some a -> lo <= a <= hi) df).
Proof.
  split.
  - unfold age_slider. split.
    + intros Hnone. apply Forall_forall. intros r Hr.
      destruct (age r) as [a|] eqn:Ha; [|reflexivity].
      assert (Hin : a ∈ omap age df) by (apply list_elem_of_omap; eauto).
      destruct (omap age df) as [|v vs]; [apply elem_of_nil in Hin as []|].
      simpl in Hnone. discriminate.
    + intros Hall. replace (omap age df) with (@nil Z); [reflexivity|].
      symmetry. induction Hall as [|r df Hr _ IH]; simpl; [reflexivity|].
      rewrite Hr. exact IH.
  - intros lo hi Hs. split; [|split].
    + apply age_slider_Some in Hs as [Hlo _].
      apply Series_min_spec in Hlo as [Hlo _].
      apply list_elem_of_omap in Hlo. exact Hlo.
    + apply age_slider_Some in Hs as [_ Hhi].
      apply Series_max_spec in Hhi as [Hhi _].
      apply list_elem_of_omap in Hhi. exact Hhi.
    + apply Forall_forall. intros r Hr a Ha.
      eapply age_slider_covers; eassumption.
Qed.

Lemma sidebar_defaults_Some (df : DataFrame) (f : FilterSpec) :
  sidebar_defaults df = Some f ->
  exists lo hi,
    age_slider df = Some (lo, hi)
    /\ f = {| sel_department := ALL; sel_category := ALL;
              sel_nationality := ALL; age_min := lo; age_max := hi;
              sel_month := ALL |}.
Proof.
  unfold sidebar_defaults.
  destruct (selectbox_options department df); simpl; [|discriminate].
  destruct (selectbox_options category df); simpl; [|discriminate].
  destruct (selectbox_options nationality_group df); simpl; [|discriminate].
  destruct (age_slider df) as [[lo hi]|]; simpl; [|discriminate].
  destruct (selectbox_options order_month df); simpl; [|discriminate].
  intros [= <-]. exists lo, hi. split; reflexivity.
Qed.

(** With no widget touched the filter step keeps exactly the rows that
    have an age, in their order: a row with a null age is dropped even
    then, and a table where every row has an age is shown whole. *)
Theorem default_view_keeps_aged_rows (df : DataFrame) (f : FilterSpec) :
  sidebar_defaults df = Some f ->
  apply_filters df f = List.filter (fun r => bool_decide (is_Some (age r))) df
  /\ (Forall (fun r => is_Some (age r)) df -> apply_filters df f = df).
Proof.
  intros Hf. destruct (sidebar_defaults_Some df f Hf) as (lo & hi & Hs & ->).
  assert (E : apply_filters df
                {| sel_department := ALL; sel_category := ALL;
                   sel_nationality := ALL; age_min := lo; age_max := hi;
                   sel_month := ALL |}
              = List.filter (fun r => bool_decide (is_Some (age r))) df).
  { rewrite apply_filters_spec. apply List.filter_ext_in. intros r Hr.
    apply list_elem_of_In in Hr. unfold satisfies, active; simpl.
    unfold age_between. destruct (age r) as [a|] eqn:Ha.
    - pose proof (age_slider_covers df lo hi r a Hs Hr Ha) as Hb.
      rewrite bool_decide_eq_true_2 by eauto.
      rewrite andb_true_r. apply andb_true_iff. rewrite !Z.leb_le. lia.
    - rewrite bool_decide_eq_false_2; [reflexivity|].
      intros [x Hx]. discriminate. }
  split; [exact E|]. intros Hall. rewrite E. clear -Hall.
  induction Hall as [|r df' Hr _ IH]; simpl; [reflexivity|].
  rewrite bool_decide_eq_true_2 by exact Hr. f_equal. exact IH.
Qed.

Lemma default_view_keeps_aged_rows_witness :
  exists f,
    sidebar_defaults four_customers = Some f
    /\ apply_filters four_customers f
       = List.filter (fun r => bool_decide (is_Some (age r))) four_customers
    /\ (Forall (fun r => is_Some (age r)) four_customers ->
        apply_filters four_customers f = four_customers).
Proof.
  eexists. split; [vm_compute; reflexivity|].
  apply (default_view_keeps_aged_rows four_customers).
  vm_compute. reflexivity.
Defined.

Lemma sorted_unique_texts (cells : list (option string))
    (l : list (option string)) (a : string) :
  sorted_unique cells = Some l -> Some a ∈ l -> Some a ∈ cells.
Proof.
  unfold sorted_unique. destruct (bool_decide (None ∈ cells)).
  - destruct (sorted_keys String.ltb (omap id cells)); [|discriminate].
    intros [= <-] Hin. apply list_elem_of_singleton in Hin. discriminate.
  - intros [= <-] Hin. apply list_elem_of_fmap in Hin as (k & [= ->] & Hk).
    apply elem_of_sorted_keys, list_elem_of_omap in Hk as (c & Hc & Hid).
    simpl in Hid. subst c. exact Hc.
Qed.

(** On a column without nulls a select box offers ["All"] and then each
    value of the column once, in ascending order, and nothing else. *)
Theorem selectbox_offers_present_values (col : Row -> option string)
    (df : DataFrame) :
  Forall (fun r => is_Some (col r)) df ->
  exists ks,
    selectbox_options col df = Some (Some ALL :: map Some ks)
    /\ StronglySorted ascending ks
    /\ (forall s, s ∈ ks <-> exists r, r ∈ df /\ col r = Some s).
Proof.
  intros Hall. exists (sorted_keys String.ltb (omap id (map col df))).
  split; [|split].
  - unfold selectbox_options, sorted_unique.
    rewrite bool_decide_eq_false_2; [reflexivity|].
    intros Hin. apply list_elem_of_fmap in Hin as (r & Hnone & Hr).
    rewrite Forall_forall in Hall. destruct (Hall r Hr) as [x Hx].
    congruence.
  - apply sorted_keys_ascending.
  - intros s. rewrite elem_of_sorted_keys, list_elem_of_omap. split.
    + intros (c & Hc & Hid). simpl in Hid. subst c.
      apply list_elem_of_fmap in Hc as (r & Hr & Hin). eauto.
    + intros (r & Hr & Hs). exists (Some s). split; [|reflexivity].
      apply list_elem_of_fmap. exists r. split; [congruence|exact Hr].
Qed.

Lemma selectbox_offers_present_values_witness :
  Forall (fun r => is_Some (department r)) four_customers
  /\ exists ks,
       selectbox_options department four_customers
       = Some (Some ALL :: map Some ks)
       /\ StronglySorted ascending ks
       /\ (forall s, s ∈ ks <->
                     exists r, r ∈ four_customers /\ department r = Some s).
Proof.
  assert (H : Forall (fun r => is_Some (department r)) four_customers)
    by (unfold four_customers; repeat constructor; eexists; reflexivity).
  split; [exact H|].
  exact (selectbox_offers_present_values department four_customers H).
Defined.

(** A column that holds both a null and a text cannot be sorted: the
    select box line raises and the script stops before any filter. *)
Theorem selectbox_raises_on_mixed_column (col : Row -> option string)
    (df : DataFrame) (r1 r2 : Row) (s : string) :
  r1 ∈ df -> col r1 = None -> r2 ∈ df -> col r2 = Some s ->
  selectbox_options col df = None.
Proof.
  intros H1 Hn H2 Hs. unfold selectbox_options, sorted_unique.
  rewrite bool_decide_eq_true_2.
  - destruct (sorted_keys String.ltb (omap id (map col df))) eqn:Hk;
      [|reflexivity].
    assert (Hin : s ∈ sorted_keys String.ltb (omap id (map col df))).
    { apply elem_of_sorted_keys, list_elem_of_omap. exists (Some s).
      split; [|reflexivity]. apply list_elem_of_fmap. exists r2.
      split; [congruence|exact H2]. }
    rewrite Hk in Hin. apply elem_of_nil in Hin as [].
  - apply list_elem_of_fmap. exists r1. split; [congruence|exact H1].
Qed.

Lemma selectbox_raises_on_mixed_column_witness :
  selectbox_options department mixed_departments = None
  /\ sidebar_defaults mixed_departments = None.
Proof.
  assert (H : selectbox_options department mixed_departments = None).
  { apply (selectbox_raises_on_mixed_column department mixed_departments
             (unlabelled_line "o1") (aged_line "o2" "Grocery" (Some 30))
             "Grocery").
    - apply list_elem_of_here.
    - reflexivity.
    - apply list_elem_of_further, list_elem_of_here.
    - reflexivity. }
  split; [exact H|]. unfold sidebar_defaults. rewrite H. reflexivity.
Defined.

Lemma sorted_unique_null (cells : list (option string))
    (l : list (option string)) :
  sorted_unique cells = Some l -> None ∈ l ->
  Forall (fun c => c = None) cells.
Proof.
  unfold sorted_unique. destruct (bool_decide (None ∈ cells)).
  - destruct (sorted_keys String.ltb (omap id cells)) eqn:Hk; [|discriminate].
    intros _ _. apply Forall_forall. intros [s|] Hc; [|reflexivity].
    assert (Hs : s ∈ sorted_keys String.ltb (omap id cells)).
    { apply elem_of_sorted_keys, list_elem_of_omap. exists (Some s).
      split; [exact Hc|reflexivity]. }
    rewrite Hk in Hs. apply elem_of_nil in Hs. contradiction.
  - intros [= <-] Hin. apply list_elem_of_fmap in Hin as (k & Hk & _).
    discriminate.
Qed.

Lemma filter_false_nil {A} (l : list A) : List.filter (fun _ => false) l = [].
Proof. induction l; simpl; [reflexivity|assumption]. Qed.

(** Every text the department select box offers has rows: with the other
    widgets untouched and an age in every row, choosing an offered text
    never gives an empty table.  The one option that is not a text is the
    null, offered when no row has a department; choosing it matches no
    row. *)
Theorem offered_department_has_rows (df : DataFrame) (f : FilterSpec)
    (opts : list (option string)) :
  sidebar_defaults df = Some f ->
  selectbox_options department df = Some opts ->
  Forall (fun r => is_Some (age r)) df ->
  (forall a, Some a ∈ opts ->
     apply_filters (filter_department (Some a) df) f
     = apply_filters df (choose_department a f)
     /\ apply_filters df (choose_department a f) <> [])
  /\ (None ∈ opts ->
      Forall (fun r => department r = None) df
      /\ apply_filters (filter_department None df) f = []).
Proof.
  intros Hf Hopts Hall.
  destruct (sidebar_defaults_Some df f Hf) as (lo & hi & Hs & ->).
  split.
  - intros a Ha. split.
    { rewrite !apply_filters_spec. unfold filter_department, getitem_mask.
      destruct (String.eqb_spec a ALL) as [->|Hne]; simpl.
      - apply List.filter_ext. intros r. reflexivity.
      - rewrite filter_filter_andb. apply List.filter_ext. intros r.
        unfold satisfies, active, choose_department. simpl.
        destruct (String.eqb_spec a ALL) as [->|_]; [contradiction|].
        simpl.
        destruct (col_eq department a r), (age_between lo hi r);
          reflexivity. }
    assert (Hrow : exists r, r ∈ df
              /\ (a <> ALL -> department r = Some a)).
    { destruct (String.eqb_spec a ALL) as [->|Hne].
      - destruct df as [|r df'].
        + vm_compute in Hs. discriminate.
        + exists r. split; [apply list_elem_of_here|intros H; contradiction].
      - unfold selectbox_options in Hopts.
        destruct (sorted_unique (map department df)) as [l|] eqn:Hl;
          simpl in Hopts; [|discriminate].
        injection Hopts as <-. apply elem_of_cons in Ha as [Ha|Ha].
        + injection Ha as ->. contradiction.
        + apply (sorted_unique_texts _ _ _ Hl) in Ha.
          apply list_elem_of_fmap in Ha as (r & Hr & Hin).
          exists r. split; [exact Hin|intros _; congruence]. }
    destruct Hrow as (r & Hr & Hd). rewrite apply_filters_spec.
    assert (Hsat : satisfies (choose_department a
                     {| sel_department := ALL; sel_category := ALL;
                        sel_nationality := ALL; age_min := lo; age_max := hi;
                        sel_month := ALL |}) r = true).
    { apply satisfies_iff. unfold Satisfies, exact_match; simpl.
      rewrite Forall_forall in Hall. destruct (Hall r Hr) as [x Hx].
      repeat split; try (intros H; contradiction); try exact Hd.
      exists x. split; [exact Hx|].
      eapply age_slider_covers; eassumption. }
    intros Hnil.
    assert (Hin : In r (List.filter (satisfies (choose_department a
                     {| sel_department := ALL; sel_category := ALL;
                        sel_nationality := ALL; age_min := lo; age_max := hi;
                        sel_month := ALL |})) df)).
    { apply List.filter_In. split; [apply list_elem_of_In, Hr|exact Hsat]. }
    rewrite Hnil in Hin. destruct Hin.
  - intros Hnone. split.
    + unfold selectbox_options in Hopts.
      destruct (sorted_unique (map department df)) as [l|] eqn:Hl;
        simpl in Hopts; [|discriminate].
      injection Hopts as <-. apply elem_of_cons in Hnone as [Hn|Hn];
        [discriminate|].
      pose proof (sorted_unique_null _ _ Hl Hn) as Hcells.
      apply Forall_fmap in Hcells. exact Hcells.
    + unfold filter_department, getitem_mask. rewrite filter_false_nil.
      reflexivity.
Qed.

Lemma offered_department_has_rows_witness :
  exists f opts,
    sidebar_defaults four_customers = Some f
    /\ selectbox_options department four_customers = Some opts
    /\ Some "Bakery" ∈ opts
    /\ Forall (fun r => is_Some (age r)) four_customers
    /\ apply_filters four_customers (choose_department "Bakery" f) <> [].
Proof.
  assert (Hages : Forall (fun r => is_Some (age r)) four_customers)
    by (unfold four_customers; repeat constructor; eexists; reflexivity).
  eexists _, _. split; [vm_compute; reflexivity|].
  split; [vm_compute; reflexivity|].
  assert (Hin : Some "Bakery"
                ∈ [Some ALL; Some "Bakery"; Some "Grocery"])
    by (apply list_elem_of_further, list_elem_of_here).
  split; [exact Hin|]. split; [exact Hages|].
  exact (proj2 (proj1 (offered_department_has_rows four_customers _ _
                         eq_refl eq_refl Hages) "Bakery" Hin)).
Defined.

(** ** Orders of keys *)

Section KeyOrder.
Context {K : Type} `{EqDecision K} (ltb : K -> K -> bool).
Hypothesis ltb_connex : forall a b, a <> b -> ltb a b = false -> ltb b a = true.
Hypothesis ltb_transitive :
  forall a b c, ltb a b = true -> ltb b c = true -> ltb a c = true.
Hypothesis ltb_irreflexive : forall a, ltb a a = false.

Let before (a b : K) : Prop := ltb a b = true.

Lemma insert_key_hd_gen (k x : K) (ks : list K) :
  before x k -> HdRel before x ks -> HdRel before x (insert_key ltb k ks).
Proof.
  intros Hxk Hx. destruct ks as [|k' ks]; simpl; [constructor; exact Hxk|].
  destruct (decide (k = k')); [exact Hx|].
  destruct (ltb k k'); constructor; [exact Hxk|].
  inversion Hx; assumption.
Qed.

Lemma insert_key_sorted_gen (k : K) (ks : list K) :
  Sorted before ks -> Sorted before (insert_key ltb k ks).
Proof.
  induction 1 as [|k' ks Hks IH Hhd]; simpl; [repeat constructor|].
  destruct (decide (k = k')) as [->|Hne]; [constructor; assumption|].
  destruct (ltb k k') eqn:Hlt.
  - constructor; [constructor; assumption|constructor; exact Hlt].
  - constructor; [exact IH|].
    apply insert_key_hd_gen; [|exact Hhd]. apply ltb_connex; assumption.
Qed.

Lemma sorted_keys_strict (ks : list K) :
  StronglySorted before (sorted_keys ltb ks).
Proof.
  apply Sorted_StronglySorted.
  - intros a b c. apply ltb_transitive.
  - unfold sorted_keys. induction ks as [|k ks IH]; simpl; [constructor|].
    apply insert_key_sorted_gen, IH.
Qed.

Lemma strict_NoDup (ks : list K) : StronglySorted before ks -> NoDup ks.
Proof.
  induction 1 as [|k ks Hks IH Hall]; constructor; [|exact IH].
  intros Hin. rewrite Forall_forall in Hall. specialize (Hall k Hin).
  unfold before in Hall. rewrite ltb_irreflexive in Hall. discriminate.
Qed.

Lemma sorted_keys_NoDup (ks : list K) : NoDup (sorted_keys ltb ks).
Proof. apply strict_NoDup, sorted_keys_strict. Qed.

(** Sorting by label leaves a series with ascending labels as it is. *)
Lemma sort_index_sorted {V} (s : list (K * V)) :
  StronglySorted before (map fst s) -> sort_index ltb s = s.
Proof.
  unfold sort_index. induction s as [|e s IH]; simpl; [reflexivity|].
  intros Hs. apply StronglySorted_inv in Hs as [Hs Hall].
  rewrite (IH Hs). destruct s as [|e' s']; simpl; [reflexivity|].
  apply Forall_cons in Hall as [He _]. unfold before in He.
  destruct (ltb (fst e') (fst e)) eqn:Hlt; [|reflexivity].
  pose proof (ltb_transitive _ _ _ He Hlt) as Hrefl.
  rewrite ltb_irreflexive in Hrefl. discriminate.
Qed.

End KeyOrder.

Lemma string_ltb_irrefl (a : string) : String.ltb a a = false.
Proof.
  rewrite ltb_negb_leb. apply negb_false_iff.
  assert (H : String.le a a) by reflexivity.
  unfold String.le in H. destruct (String.leb a a); [reflexivity|destruct H].
Qed.

Lemma string_ltb_trans (a b c : string) :
  String.ltb a b = true -> String.ltb b c = true -> String.ltb a c = true.
Proof. apply ascending_trans. Qed.

Lemma string_keys_NoDup (ks : list string) :
  NoDup (sorted_keys String.ltb ks).
Proof.
  apply sorted_keys_NoDup;
    [exact ltb_total|exact string_ltb_trans|exact string_ltb_irrefl].
Qed.

Lemma ltb3_connex (a b : string * string * string) :
  a <> b -> ltb3 a b = false -> ltb3 b a = true.
Proof.
  destruct a as [[a1 a2] a3], b as [[b1 b2] b3]. unfold ltb3.
  intros Hne H.
  apply orb_false_iff in H as [H1 H].
  destruct (String.eqb_spec a1 b1) as [->|N1]; simpl in *.
  - rewrite string_ltb_irrefl, String.eqb_refl. simpl.
    apply orb_false_iff in H as [H2 H].
    destruct (String.eqb_spec a2 b2) as [->|N2]; simpl in *.
    + rewrite string_ltb_irrefl, String.eqb_refl. simpl.
      apply ltb_total; [|exact H]. intros ->. apply Hne. reflexivity.
    + rewrite (ltb_total a2 b2 N2 H2). reflexivity.
  - rewrite (ltb_total a1 b1 N1 H1). reflexivity.
Qed.

Lemma ltb3_irrefl (a : string * string * string) : ltb3 a a = false.
Proof.
  destruct a as [[a1 a2] a3]. unfold ltb3.
  rewrite !string_ltb_irrefl, !String.eqb_refl. reflexivity.
Qed.

Lemma ltb3_trans (a b c : string * string * string) :
  ltb3 a b = true -> ltb3 b c = true -> ltb3 a c = true.
Proof.
  destruct a as [[a1 a2] a3], b as [[b1 b2] b3], c as [[c1 c2] c3].
  unfold ltb3. intros Hab Hbc.
  apply orb_true_iff in Hab as [Hab|Hab];
    apply orb_true_iff in Hbc as [Hbc|Hbc].
  - rewrite (string_ltb_trans _ _ _ Hab Hbc). reflexivity.
  - apply andb_true_iff in Hbc as [E _]. apply String.eqb_eq in E as <-.
    rewrite Hab. reflexivity.
  - apply andb_true_iff in Hab as [E _]. apply String.eqb_eq in E as ->.
    rewrite Hbc. reflexivity.
  - apply andb_true_iff in Hab as [E1 Hab], Hbc as [E2 Hbc].
    apply String.eqb_eq in E1 as ->. apply String.eqb_eq in E2 as ->.
    rewrite String.eqb_refl. simpl. apply orb_true_iff. right.
    apply orb_true_iff in Hab as [Hab|Hab];
      apply orb_true_iff in Hbc as [Hbc|Hbc].
    + rewrite (string_ltb_trans _ _ _ Hab Hbc). reflexivity.
    + apply andb_true_iff in Hbc as [E _]. apply String.eqb_eq in E as <-.
      rewrite Hab. reflexivity.
    + apply andb_true_iff in Hab as [E _]. apply String.eqb_eq in E as ->.
      rewrite Hbc. reflexivity.
    + apply andb_true_iff in Hab as [E1 Hab], Hbc as [E2 Hbc].
      apply String.eqb_eq in E1 as ->. apply String.eqb_eq in E2 as ->.
      rewrite String.eqb_refl, (string_ltb_trans _ _ _ Hab Hbc).
      apply orb_true_r.
Qed.

Lemma sku_keys_NoDup (ks : list (string * string * string)) :
  NoDup (sorted_keys ltb3 ks).
Proof.
  apply sorted_keys_NoDup; [exact ltb3_connex|exact ltb3_trans|exact ltb3_irrefl].
Qed.

Lemma lex_compare_eq (a b : list Z) : lex_compare a b = Eq -> a = b.
Proof.
  revert b. induction a as [|x a IH]; intros [|y b]; simpl;
    try discriminate; [reflexivity|].
  destruct (x ?= y) eqn:Hxy; try discriminate.
  apply Z.compare_eq in Hxy as ->. intros H. f_equal. apply IH, H.
Qed.

Lemma lex_compare_refl (a : list Z) : lex_compare a a = Eq.
Proof.
  induction a as [|x a IH]; simpl; [reflexivity|].
  rewrite Z.compare_refl. exact IH.
Qed.

Lemma lex_compare_antisym (a b : list Z) :
  lex_compare b a = CompOpp (lex_compare a b).
Proof.
  revert b. induction a as [|x a IH]; intros [|y b]; simpl;
    try reflexivity.
  rewrite (Z.compare_antisym x y).
  destruct (x ?= y); simpl; [apply IH|reflexivity|reflexivity].
Qed.

Lemma lex_compare_trans (a b c : list Z) :
  lex_compare a b = Lt -> lex_compare b c = Lt -> lex_compare a c = Lt.
Proof.
  revert b c. induction a as [|x a IH]; intros [|y b] [|z c]; simpl;
    try discriminate; try reflexivity.
  destruct (x ?= y) eqn:Hxy; try discriminate;
    destruct (y ?= z) eqn:Hyz; try discriminate.
  - apply Z.compare_eq in Hxy as ->. rewrite Hyz. apply IH.
  - apply Z.compare_eq in Hxy as ->. rewrite Hyz. reflexivity.
  - apply Z.compare_eq in Hyz as <-. rewrite Hxy. reflexivity.
  - intros _ _. assert (Hxz : (x ?= z) = Lt).
    { apply Z.compare_lt_iff.
      pose proof (proj1 (Z.compare_lt_iff _ _) Hxy).
      pose proof (proj1 (Z.compare_lt_iff _ _) Hyz). lia. }
    rewrite Hxz. reflexivity.
Qed.

Lemma ts_fields_inj (a b : Timestamp) : ts_fields a = ts_fields b -> a = b.
Proof. destruct a, b. unfold ts_fields; simpl. intros [= -> -> -> -> -> ->]. reflexivity. Qed.

Lemma ts_ltb_connex (a b : Timestamp) :
  a <> b -> ts_ltb a b = false -> ts_ltb b a = true.
Proof.
  unfold ts_ltb. intros Hne.
  rewrite (lex_compare_antisym (ts_fields a) (ts_fields b)).
  destruct (lex_compare (ts_fields a) (ts_fields b)) eqn:Hc; simpl;
    try discriminate; [|reflexivity].
  exfalso. apply Hne, ts_fields_inj, lex_compare_eq, Hc.
Qed.

Lemma ts_ltb_trans (a b c : Timestamp) :
  ts_ltb a b = true -> ts_ltb b c = true -> ts_ltb a c = true.
Proof.
  unfold ts_ltb.
  destruct (lex_compare (ts_fields a) (ts_fields b)) eqn:Hab;
    try discriminate.
  destruct (lex_compare (ts_fields b) (ts_fields c)) eqn:Hbc;
    try discriminate.
  rewrite (lex_compare_trans _ _ _ Hab Hbc). reflexivity.
Qed.

Lemma ts_ltb_irrefl (a : Timestamp) : ts_ltb a a = false.
Proof. unfold ts_ltb. rewrite lex_compare_refl. reflexivity. Qed.

(** ** The default sort *)

Section NumpySortProofs.
Context {T : Type} (lt : T -> T -> bool).
Local Abbreviation ascends := (ascends lt).
Local Abbreviation descends := (descends lt).
Local Abbreviation insert_back := (insert_back lt).
Local Abbreviation insertion_sort := (insertion_sort lt).
Local Abbreviation median3 := (median3 lt).
Local Abbreviation hoare := (hoare lt).
Local Abbreviation partition := (partition lt).
Local Abbreviation dominated := (dominated lt).
Local Abbreviation heap_from := (heap_from lt).
Local Abbreviation sift := (sift lt).
Local Abbreviation heapify := (heapify lt).
Local Abbreviation extract_max := (extract_max lt).
Local Abbreviation aheapsort := (aheapsort lt).
Local Abbreviation aquicksort_range := (aquicksort_range lt).
Local Abbreviation aquicksort := (aquicksort lt).

(** The comparison is a strict order in which being not less is
    transitive. *)
Hypothesis lt_asym : forall x y, lt x y = true -> lt y x = false.
Hypothesis le_trans :
  forall x y z, lt y x = false -> lt z y = false -> lt z x = false.


Lemma lt_irreflexive (x : T) : lt x x = false.
Proof. destruct (lt x x) eqn:E; [|reflexivity]. rewrite (lt_asym _ _ E) in E. discriminate. Qed.

Lemma rev_reverse {A} (l : list A) : rev l = reverse l.
Proof. unfold reverse. apply rev_alt. Qed.

Lemma StronglySorted_rev (R : T -> T -> Prop) (l : list T) :
  StronglySorted R l -> StronglySorted (fun x y => R y x) (rev l).
Proof.
  induction 1 as [|x l Hl IH Hx]; simpl; [constructor|].
  assert (G : forall l1 l2,
             StronglySorted (fun x y => R y x) l1 ->
             StronglySorted (fun x y => R y x) l2 ->
             (forall a b, a ∈ l1 -> b ∈ l2 -> R b a) ->
             StronglySorted (fun x y => R y x) (l1 ++ l2)).
  { clear. induction l1 as [|a l1 IH]; intros l2 H1 H2 Hc; simpl; [exact H2|].
    apply StronglySorted_inv in H1 as [H1 Ha]. constructor.
    - apply IH; [exact H1|exact H2|].
      intros x y Hx Hy. apply Hc; [apply list_elem_of_further, Hx|exact Hy].
    - apply Forall_app. split; [exact Ha|].
      apply Forall_forall. intros y Hy. apply Hc; [apply list_elem_of_here|exact Hy]. }
  apply G; [exact IH|repeat constructor|].
  intros a b Ha Hb. apply list_elem_of_singleton in Hb as ->.
  rewrite Forall_forall in Hx. apply Hx.
  rewrite rev_reverse, elem_of_reverse in Ha. exact Ha.
Qed.

Lemma ascends_app (l1 l2 : list T) (p : T) :
  StronglySorted ascends l1 -> StronglySorted ascends l2 ->
  Forall (fun x => lt p x = false) l1 -> Forall (fun y => lt y p = false) l2 ->
  StronglySorted ascends (l1 ++ p :: l2).
Proof.
  intros H1 H2 Hl Hr. induction l1 as [|a l1 IH]; simpl.
  - constructor; [exact H2|exact Hr].
  - apply StronglySorted_inv in H1 as [H1 Ha].
    apply Forall_cons_1 in Hl as [Hap Hl]. constructor; [apply IH; assumption|].
    apply Forall_app. split; [exact Ha|]. constructor; [exact Hap|].
    eapply Forall_impl; [exact Hr|]. intros y Hy. unfold ascends.
    exact (le_trans a p y Hap Hy).
Qed.

(** ** Insertion sort *)
Lemma insert_back_perm (x : T) (racc : list T) :
  Permutation (insert_back x racc) (x :: racc).
Proof.
  induction racc as [|y racc IH]; simpl; [reflexivity|].
  destruct (lt x y); [|reflexivity]. rewrite IH. apply perm_swap.
Qed.

Lemma insert_back_sorted (x : T) (racc : list T) :
  StronglySorted descends racc -> StronglySorted descends (insert_back x racc).
Proof.
  induction racc as [|y racc IH]; intros H; simpl; [repeat constructor|].
  apply StronglySorted_inv in H as [H Hy].
  destruct (lt x y) eqn:E.
  - constructor; [apply IH, H|].
    rewrite insert_back_perm. constructor; [exact (lt_asym _ _ E)|exact Hy].
  - constructor; [constructor; assumption|]. constructor; [exact E|].
    eapply Forall_impl; [exact Hy|]. intros z Hz. unfold descends in *.
    exact (le_trans z y x Hz E).
Qed.

Lemma insertion_fold (a racc : list T) :
  Permutation (fold_left (fun racc x => insert_back x racc) a racc) (a ++ racc)
  /\ (StronglySorted descends racc ->
      StronglySorted descends
        (fold_left (fun racc x => insert_back x racc) a racc)).
Proof.
  revert racc. induction a as [|x a IH]; intros racc; simpl.
  - split; [reflexivity|tauto].
  - destruct (IH (insert_back x racc)) as [Hp Hs]. split.
    + rewrite Hp, insert_back_perm. symmetry. apply Permutation_middle.
    + intros H. apply Hs, insert_back_sorted, H.
Qed.

Lemma insertion_sort_perm (a : list T) : Permutation (insertion_sort a) a.
Proof.
  unfold insertion_sort. rewrite <- Permutation_rev.
  destruct (insertion_fold a []) as [Hp _]. rewrite Hp, app_nil_r. reflexivity.
Qed.

Lemma insertion_sort_sorted (a : list T) :
  StronglySorted ascends (insertion_sort a).
Proof.
  unfold insertion_sort.
  destruct (insertion_fold a []) as [_ Hs].
  apply (StronglySorted_rev descends). apply Hs. constructor.
Qed.

(** ** The partition *)
Lemma median3_spec (x0 xm xl lo vp hi : T) :
  median3 x0 xm xl = (lo, vp, hi) ->
  Permutation [lo; vp; hi] [x0; xm; xl]
  /\ lt vp lo = false /\ lt hi vp = false.
Proof.
  unfold median3.
  repeat match goal with
         | |- context [if lt ?a ?b then _ else _] =>
             let E := fresh "E" in destruct (lt a b) eqn:E
         end;
    intros [= <- <- <-];
    try (exfalso;
         match goal with
         | H1 : lt ?a ?b = true, H2 : lt ?b ?a = true |- _ =>
             rewrite (lt_asym _ _ H1) in H2; discriminate
         end);
    (split;
     [first [ reflexivity
            | apply perm_swap
            | apply perm_skip, perm_swap
            | (etransitivity; [apply perm_swap|apply perm_skip, perm_swap])
            | (etransitivity; [apply perm_skip, perm_swap|apply perm_swap])
            | (etransitivity;
               [apply perm_swap
               |etransitivity; [apply perm_skip, perm_swap|apply perm_swap]])
            | congruence ]
     |split;
      first [assumption | apply lt_asym; assumption | congruence]]).
Qed.

Lemma take_while_spec (p : T -> bool) (l : list T) :
  Forall (fun x => p x = true) (take_while p l)
  /\ take (length (take_while p l)) l = take_while p l
  /\ (forall x, l !! length (take_while p l) = Some x -> p x = false).
Proof.
  induction l as [|a l (IH1 & IH2 & IH3)]; simpl.
  - repeat split; [constructor|]. intros x H. discriminate.
  - destruct (p a) eqn:E; simpl.
    + repeat split; [constructor; assumption|f_equal; exact IH2|exact IH3].
    + repeat split; [constructor|]. intros x [= <-]. exact E.
Qed.

Lemma take_while_length (p : T -> bool) (l : list T) :
  (length (take_while p l) <= length l)%nat.
Proof. induction l as [|a l IH]; simpl; [lia|]. destruct (p a); simpl; lia. Qed.

(** The elements the scan from the right passes are the last ones. *)
Lemma take_while_rev_spec (p : T -> bool) (l : list T) :
  let j := length (take_while p (rev l)) in
  Forall (fun x => p x = true) (drop (length l - j) l)
  /\ (forall y, l !! (length l - j - 1)%nat = Some y -> (j < length l)%nat ->
                p y = false).
Proof.
  intros j. destruct (take_while_spec p (rev l)) as (H1 & H2 & H3).
  fold j in H1, H2, H3.
  pose proof (take_while_length p (rev l)) as Hj. fold j in Hj.
  rewrite length_rev in Hj.
  split.
  - rewrite <- H2 in H1. rewrite firstn_rev in H1.
    apply Forall_rev in H1. rewrite rev_involutive in H1.
    exact H1.
  - intros y Hy Hlt. apply (H3 y).
    rewrite rev_reverse, reverse_lookup by lia.
    rewrite <- Hy. f_equal. lia.
Qed.

Lemma drop_cons_inv {A} (i : nat) (l : list A) (x : A) (t : list A) :
  drop i l = x :: t -> l !! i = Some x /\ t = drop (S i) l.
Proof.
  revert l. induction i as [|i IH]; intros [|a l] H; simpl in *;
    try discriminate.
  - injection H as -> ->. split; reflexivity.
  - apply IH, H.
Qed.

Lemma hoare_spec (vp : T) (fuel : nat) :
  forall L M R lower rest,
    (length M <= fuel)%nat ->
    Forall (fun x => lt vp x = false) L ->
    Forall (fun y => lt y vp = false) R ->
    hoare fuel vp L M R = (lower, rest) ->
    Permutation (lower ++ rest) (L ++ M ++ R)
    /\ Forall (fun x => lt vp x = false) lower
    /\ Forall (fun y => lt y vp = false) rest.
Proof.
  induction fuel as [|fuel IH]; intros L M R lower rest Hfuel HL HR.
  - destruct M; [|simpl in Hfuel; lia]. simpl. intros [= <- <-].
    rewrite app_nil_r. repeat split; [reflexivity|exact HL|exact HR].
  - cbn [hoare].
    set (i := length (take_while (fun x => lt x vp) M)).
    set (j := length (take_while (fun y => lt vp y) (rev M))).
    destruct (take_while_spec (fun x => lt x vp) M) as (F1 & F1' & F2).
    fold i in F1', F2.
    destruct (take_while_rev_spec (fun y => lt vp y) M) as (F3 & F4).
    fold j in F3, F4.
    pose proof (take_while_length (fun x => lt x vp) M) as Hi. fold i in Hi.
    pose proof (take_while_length (fun y => lt vp y) (rev M)) as Hj.
    fold j in Hj. rewrite length_rev in Hj.
    assert (Hlow : Forall (fun x => lt vp x = false) (take i M)).
    { rewrite F1'. eapply Forall_impl; [exact F1|].
      intros x Hx. simpl in Hx. exact (lt_asym _ _ Hx). }
    assert (Hhigh : Forall (fun y => lt y vp = false) (drop (length M - j) M)).
    { eapply Forall_impl; [exact F3|].
      intros y Hy. simpl in Hy. exact (lt_asym _ _ Hy). }
    assert (Hbreak : (length M < i + j + 2)%nat ->
              (lower, rest) = (L ++ take i M, drop i M ++ R) ->
              Permutation (lower ++ rest) (L ++ M ++ R)
              /\ Forall (fun x => lt vp x = false) lower
              /\ Forall (fun y => lt y vp = false) rest).
    { intros Hlt [= -> ->]. split; [|split].
      - rewrite <- app_assoc, (app_assoc (take i M)), take_drop. reflexivity.
      - apply Forall_app. split; assumption.
      - apply Forall_app. split; [|exact HR].
        destruct (drop i M) as [|x t] eqn:Hd; [constructor|].
        apply drop_cons_inv in Hd as [Hx Ht].
        constructor; [apply F2, Hx|].
        rewrite Ht.
        replace (S i) with ((length M - j) + (S i - (length M - j)))%nat by lia.
        rewrite <- drop_drop. apply Forall_drop, Hhigh. }
    destruct (i + j + 2 <=? length M)%nat eqn:Hc.
    2:{ apply Nat.leb_gt in Hc. intros H. apply Hbreak; [exact Hc|].
        symmetry. exact H. }
    apply Nat.leb_le in Hc.
    destruct (drop i M) as [|x t] eqn:Hd.
    { apply (f_equal length) in Hd. rewrite length_drop in Hd.
      simpl in Hd. lia. }
    destruct (drop (length M - j - 1) M) as [|y M4] eqn:Hd'.
    { apply (f_equal length) in Hd'. rewrite length_drop in Hd'.
      simpl in Hd'. lia. }
    destruct (drop_cons_inv _ _ _ _ Hd) as [Hx Ht].
    destruct (drop_cons_inv _ _ _ _ Hd') as [Hy HM4].
    replace (S (length M - j - 1)) with (length M - j)%nat in HM4 by lia.
    set (mid := take (length M - i - j - 2) (drop (S i) M)).
    assert (HM : M = take i M ++ x :: mid ++ y :: M4).
    { rewrite <- (take_drop i M) at 1. rewrite Hd. do 2 f_equal.
      rewrite Ht, <- (take_drop (length M - i - j - 2) (drop (S i) M)) at 1.
      fold mid. f_equal. rewrite drop_drop.
      replace (S i + (length M - i - j - 2))%nat
        with (length M - j - 1)%nat by lia.
      exact Hd'. }
    intros Hrec.
    apply IH in Hrec as (Hp & Hl & Hr).
    + split; [|split; assumption].
      rewrite Hp. rewrite HM at 2. rewrite <- !app_assoc. simpl.
      do 2 apply Permutation_app_head.
      rewrite <- !Permutation_middle. simpl. rewrite <- ?app_assoc.
      apply perm_swap.
    + unfold mid. rewrite length_take, length_drop. lia.
    + apply Forall_app. split; [exact HL|]. apply Forall_app. split;
        [exact Hlow|]. constructor; [|constructor]. apply F4; [exact Hy|lia].
    + constructor; [apply F2, Hx|]. apply Forall_app. split; [|exact HR].
      rewrite HM4. exact Hhigh.
Qed.

Lemma partition_spec (a lower upper : list T) (p : T) :
  partition a = Some (lower, p, upper) ->
  Permutation (lower ++ p :: upper) a
  /\ Forall (fun x => lt p x = false) lower
  /\ Forall (fun y => lt y p = false) upper.
Proof.
  unfold partition. destruct a as [|x0 t]; [discriminate|].
  set (m := (length (x0 :: t) - 1)%nat). set (pm := (m / 2)%nat).
  destruct (drop (pm - 1) t) as [|xm t2] eqn:E1; [discriminate|].
  destruct (drop (m - 2 - pm) t2) as [|xp [|xl [|? ?]]] eqn:E2;
    try discriminate.
  destruct (median3 x0 xm xl) as [[lo vp] hi] eqn:Em.
  destruct (median3_spec _ _ _ _ _ _ Em) as (Hm & Hlo & Hhi).
  set (A := take (pm - 1) t) in *. set (B := take (m - 2 - pm) t2) in *.
  assert (Ht : t = A ++ xm :: B ++ [xp; xl]).
  { rewrite <- (take_drop (pm - 1) t) at 1. fold A. rewrite E1.
    do 2 f_equal. rewrite <- (take_drop (m - 2 - pm) t2) at 1. fold B.
    rewrite E2. reflexivity. }
  destruct (hoare (length (x0 :: t)) vp [lo] (A ++ xp :: B) []) as [lw rest]
    eqn:Eh.
  apply hoare_spec in Eh as (Hp & Hl & Hr).
  - intros [= <- <- <-].
    assert (Hup : Permutation
                    match rest with
                    | [] => [hi]
                    | z :: rest' => rest' ++ [z; hi]
                    end (hi :: rest)).
    { destruct rest as [|z rest']; [reflexivity|].
      rewrite (Permutation_app_comm rest'). simpl. apply perm_swap. }
    split; [|split].
    + transitivity (vp :: hi :: (lw ++ rest)).
      { rewrite Hup, <- Permutation_middle. apply perm_skip.
        symmetry. apply Permutation_middle. }
      rewrite Hp, app_nil_r.
      transitivity ([lo; vp; hi] ++ (A ++ xp :: B)).
      { change (vp :: hi :: [lo] ++ A ++ xp :: B)
          with ([vp; hi; lo] ++ (A ++ xp :: B)).
        apply Permutation_app_tail. symmetry.
        apply (Permutation_cons_append [vp; hi] lo). }
      rewrite Hm, Ht. simpl. apply perm_skip.
      rewrite <- (Permutation_middle A (B ++ [xp; xl]) xm). apply perm_skip.
      rewrite (Permutation_cons_append (A ++ xp :: B) xl), <- app_assoc.
      apply Permutation_app_head. simpl. apply Permutation_middle.
    + exact Hl.
    + rewrite Hup. constructor; [exact Hhi|exact Hr].
  - rewrite Ht. simpl. rewrite !length_app. simpl. rewrite !length_app.
    simpl. lia.
  - repeat constructor. exact Hlo.
  - constructor.
Qed.

Lemma partition_sizes (a lower upper : list T) (p : T) :
  partition a = Some (lower, p, upper) ->
  (length lower + 1 + length upper = length a)%nat.
Proof.
  intros H. apply partition_spec in H as (Hp & _ & _).
  apply Permutation_length in Hp. rewrite length_app in Hp. simpl in Hp. lia.
Qed.

(** The partition of a range of four or more elements is defined. *)
Lemma partition_defined (a : list T) :
  (4 <= length a)%nat -> is_Some (partition a).
Proof.
  intros Hlen. unfold partition. destruct a as [|x0 t]; [simpl in Hlen; lia|].
  set (m := (length (x0 :: t) - 1)%nat). set (pm := (m / 2)%nat).
  assert (Hm : m = length t) by (unfold m; simpl; lia).
  assert (Hpm : (1 <= pm /\ pm + 2 <= m)%nat).
  { unfold pm. simpl in Hlen.
    pose proof (Nat.div_mod_eq m 2%nat) as Hdiv.
    pose proof (Nat.mod_upper_bound m 2%nat ltac:(lia)) as Hmod. lia. }
  destruct (drop (pm - 1) t) as [|xm t2] eqn:E1.
  { apply (f_equal length) in E1. rewrite length_drop in E1. simpl in E1. lia. }
  assert (Hl2 : (length t2 = m - pm)%nat).
  { apply (f_equal length) in E1. rewrite length_drop in E1. simpl in E1. lia. }
  destruct (drop (m - 2 - pm) t2) as [|xp [|xl [|? ?]]] eqn:E2;
    apply (f_equal length) in E2; rewrite length_drop in E2; simpl in E2;
    try lia.
  destruct (median3 x0 xm xl) as [[lo vp] hi].
  destruct (hoare _ _ _ _ _). eexists. reflexivity.
Qed.

(** ** Heapsort *)

Lemma get1_lookup (d : T) (k : nat) (a : list T) (x : T) :
  a !! (k - 1)%nat = Some x -> get1 d k a = x.
Proof. intros H. unfold get1. apply nth_lookup_Some, H. Qed.

Lemma lookup_get1 (d : T) (k : nat) (a : list T) :
  (1 <= k <= length a)%nat -> a !! (k - 1)%nat = Some (get1 d k a).
Proof.
  intros H. unfold get1.
  destruct (nth_lookup_or_length a (k - 1) d) as [E|E]; [exact E|lia].
Qed.

Lemma set1_length (k : nat) (x : T) (a : list T) :
  length (set1 k x a) = length a.
Proof. apply length_insert. Qed.

Lemma set1_lookup_eq (k : nat) (x y : T) (a : list T) :
  set1 k x a !! (k - 1)%nat = Some y -> y = x.
Proof.
  unfold set1. intros H.
  assert (Hlt : (k - 1 < length a)%nat).
  { apply lookup_lt_Some in H. rewrite length_insert in H. exact H. }
  rewrite list_lookup_insert_eq in H by exact Hlt. congruence.
Qed.

Lemma set1_lookup_ne (k c : nat) (x : T) (a : list T) :
  (1 <= k)%nat -> (1 <= c)%nat -> c <> k ->
  set1 k x a !! (c - 1)%nat = a !! (c - 1)%nat.
Proof. intros Hk Hc Hne. unfold set1. apply list_lookup_insert_ne. lia. Qed.

Lemma insert_swap_head (h v : T) (b : list T) (q : nat) :
  b !! q = Some v -> Permutation (v :: <[q := h]> b) (h :: b).
Proof.
  revert q. induction b as [|w b IH]; intros [|q] H; simpl in *;
    try discriminate.
  - injection H as ->. apply perm_swap.
  - rewrite (perm_swap w v). rewrite (IH q H). apply perm_swap.
Qed.

Lemma insert_swap (b : list T) (p q : nat) (u v : T) :
  p <> q -> b !! p = Some u -> b !! q = Some v ->
  Permutation (<[q := u]> (<[p := v]> b)) b.
Proof.
  revert p q. induction b as [|h b IH]; intros [|p] [|q] Hne Hp Hq;
    simpl in *; try discriminate; try contradiction.
  - injection Hp as ->. apply insert_swap_head, Hq.
  - injection Hq as ->. apply insert_swap_head, Hp.
  - apply perm_skip, IH; [congruence|exact Hp|exact Hq].
Qed.

Lemma sift_spec (l : nat) (tmp : T) (fuel : nat) :
  forall (i : nat) (a : list T),
    (1 <= l <= i)%nat -> (i <= length a)%nat -> (length a < i + fuel)%nat ->
    (forall k c, (l <= k)%nat -> k <> i -> child c k -> c <> i ->
                 dominated a k c) ->
    (forall k x, (l <= k)%nat -> child i k -> a !! (k - 1)%nat = Some x ->
                 lt x tmp = false
                 /\ forall c y, child c i -> a !! (c - 1)%nat = Some y ->
                                lt x y = false) ->
    length (sift fuel tmp i a) = length a
    /\ Permutation (sift fuel tmp i a) (set1 i tmp a)
    /\ heap_from l (sift fuel tmp i a).
Proof.
  induction fuel as [|fuel IH]; intros i a Hl Hi Hfuel I1 I2; [lia|].
  (* the heap when [tmp] is put at [i] and its children are not above it *)
  assert (Hstop : (forall c y, child c i -> a !! (c - 1)%nat = Some y ->
                               lt tmp y = false) ->
                  length (set1 i tmp a) = length a
                  /\ Permutation (set1 i tmp a) (set1 i tmp a)
                  /\ heap_from l (set1 i tmp a)).
  { intros Hch. split; [apply set1_length|]. split; [reflexivity|].
    intros k c Hk Hc x y Hx Hy.
    assert (Hc1 : (1 <= c)%nat) by (destruct Hc; lia).
    destruct (Nat.eq_dec k i) as [->|Hki].
    - apply set1_lookup_eq in Hx as ->.
      rewrite set1_lookup_ne in Hy by (destruct Hc; lia).
      exact (Hch c y Hc Hy).
    - rewrite set1_lookup_ne in Hx by lia.
      destruct (Nat.eq_dec c i) as [->|Hci].
      + apply set1_lookup_eq in Hy as ->.
        exact (proj1 (I2 k x Hk Hc Hx)).
      + rewrite set1_lookup_ne in Hy by lia.
        exact (I1 k c Hk Hki Hc Hci x y Hx Hy). }
  cbn [sift].
  destruct (2 * i <=? length a)%nat eqn:Hj0.
  2:{ apply Nat.leb_gt in Hj0. apply Hstop. intros c y Hc Hy.
      apply lookup_lt_Some in Hy. destruct Hc; lia. }
  apply Nat.leb_le in Hj0.
  set (j := if (2 * i <? length a)%nat
               && lt (get1 tmp (2 * i) a) (get1 tmp (2 * i + 1) a)
            then (2 * i + 1)%nat else (2 * i)%nat).
  (* [j] is the child of [i] that is not less than the other *)
  assert (Hj : child j i /\ (j <= length a)%nat
               /\ forall c y, child c i -> a !! (c - 1)%nat = Some y ->
                              lt (get1 tmp j a) y = false).
  { pose proof (lookup_get1 tmp (2 * i) a ltac:(lia)) as Ha.
    unfold j. destruct (2 * i <? length a)%nat eqn:Hlt; cbn [andb].
    - apply Nat.ltb_lt in Hlt.
      pose proof (lookup_get1 tmp (2 * i + 1) a ltac:(lia)) as Hb.
      destruct (lt (get1 tmp (2 * i) a) (get1 tmp (2 * i + 1) a)) eqn:E;
        cbv iota.
      + split; [right; reflexivity|]. split; [lia|].
        intros c y [->| ->] Hy.
        * rewrite Ha in Hy. injection Hy as <-. exact (lt_asym _ _ E).
        * rewrite Hb in Hy. injection Hy as <-. apply lt_irreflexive.
      + split; [left; reflexivity|]. split; [lia|].
        intros c y [->| ->] Hy.
        * rewrite Ha in Hy. injection Hy as <-. apply lt_irreflexive.
        * rewrite Hb in Hy. injection Hy as <-. exact E.
    - apply Nat.ltb_ge in Hlt.
      split; [left; reflexivity|]. split; [lia|].
      intros c y [->| ->] Hy.
      + rewrite Ha in Hy. injection Hy as <-. apply lt_irreflexive.
      + apply lookup_lt_Some in Hy. lia. }
  clearbody j. destruct Hj as (Hji & Hjn & Hjmax).
  assert (Hj1 : (i < j)%nat) by (destruct Hji; lia).
  pose proof (lookup_get1 tmp j a ltac:(lia)) as Haj.
  destruct (lt tmp (get1 tmp j a)) eqn:Etmp.
  2:{ apply Hstop. intros c y Hc Hy.
      exact (le_trans y (get1 tmp j a) tmp (Hjmax c y Hc Hy) Etmp). }
  set (a' := set1 i (get1 tmp j a) a).
  destruct (IH j a') as (R1 & R2 & R3).
  - lia.
  - unfold a'. rewrite set1_length. exact Hjn.
  - unfold a'. rewrite set1_length. lia.
  - intros k c Hk Hkj Hc Hcj x y Hx Hy.
    assert (Hc1 : (1 <= c)%nat) by (destruct Hc; lia).
    unfold a' in Hx, Hy.
    destruct (Nat.eq_dec k i) as [->|Hki].
    + apply set1_lookup_eq in Hx as ->.
      rewrite set1_lookup_ne in Hy by (destruct Hc; lia).
      exact (Hjmax c y Hc Hy).
    + rewrite set1_lookup_ne in Hx by lia.
      destruct (Nat.eq_dec c i) as [->|Hci].
      * apply set1_lookup_eq in Hy as ->.
        exact (proj2 (I2 k x Hk Hc Hx) j _ Hji Haj).
      * rewrite set1_lookup_ne in Hy by lia.
        exact (I1 k c Hk Hki Hc Hci x y Hx Hy).
  - intros k x Hk Hc Hx.
    assert (Hki : k = i) by (destruct Hc, Hji; lia). subst k.
    unfold a' in Hx. apply set1_lookup_eq in Hx as ->.
    split; [exact (lt_asym _ _ Etmp)|].
    intros c y Hcj Hy. unfold a' in Hy.
    rewrite set1_lookup_ne in Hy by (destruct Hcj; lia).
    apply (I1 j c); [lia|lia|exact Hcj|destruct Hcj; lia|exact Haj|exact Hy].
  - split; [|split].
    + rewrite R1. unfold a'. apply set1_length.
    + rewrite R2. unfold a', set1.
      assert (Hbi : <[(i - 1)%nat := tmp]> a !! (i - 1)%nat = Some tmp)
        by (apply list_lookup_insert_eq; lia).
      assert (Hbj : <[(i - 1)%nat := tmp]> a !! (j - 1)%nat
                    = Some (get1 tmp j a))
        by (rewrite list_lookup_insert_ne by lia; exact Haj).
      rewrite <- (list_insert_insert_eq a (i - 1) (get1 tmp j a) tmp).
      apply insert_swap; [lia|exact Hbi|exact Hbj].
    + exact R3.
Qed.

Lemma heapify_step (l : nat) (a : list T) (tmp : T) :
  (1 <= l)%nat -> a !! (l - 1)%nat = Some tmp -> heap_from (S l) a ->
  length (sift (length a) tmp l a) = length a
  /\ Permutation (sift (length a) tmp l a) a
  /\ heap_from l (sift (length a) tmp l a).
Proof.
  intros Hl Htmp Hheap.
  pose proof (lookup_lt_Some _ _ _ Htmp) as Hlt.
  destruct (sift_spec l tmp (length a) l a) as (R1 & R2 & R3);
    [lia|lia|lia| | |].
  - intros k c Hk Hkl Hc _. apply Hheap; [lia|exact Hc].
  - intros k x Hk Hc _. destruct Hc; lia.
  - split; [exact R1|]. split; [|exact R3].
    rewrite R2. unfold set1. rewrite list_insert_id by exact Htmp.
    reflexivity.
Qed.

Lemma heapify_loop (m : nat) :
  forall a : list T,
    (m <= length a)%nat -> heap_from (S m) a ->
    let r := fold_left (fun a l => match a !! (l - 1)%nat with
                                   | Some tmp => sift (length a) tmp l a
                                   | None => a
                                   end) (rev (seq 1 m)) a in
    length r = length a /\ Permutation r a /\ heap_from 1 r.
Proof.
  induction m as [|m IH]; intros a Hm Hheap; cbv zeta.
  - simpl. repeat split; [reflexivity|exact Hheap].
  - rewrite seq_S, rev_app_distr. cbn [rev app fold_left Nat.add].
    replace (S m - 1)%nat with m by lia.
    destruct (a !! m) as [tmp|] eqn:Htmp.
    2:{ apply lookup_ge_None in Htmp. lia. }
    destruct (heapify_step (S m) a tmp) as (R1 & R2 & R3);
      [lia|simpl; replace (m - 0)%nat with m by lia; exact Htmp|exact Hheap|].
    destruct (IH (sift (length a) tmp (S m) a)) as (Q1 & Q2 & Q3);
      [lia|exact R3|].
    cbv zeta in Q1, Q2, Q3.
    split; [rewrite Q1; exact R1|]. split; [rewrite Q2; exact R2|exact Q3].
Qed.

Lemma heapify_spec (a : list T) :
  length (heapify a) = length a
  /\ Permutation (heapify a) a
  /\ heap_from 1 (heapify a).
Proof.
  unfold heapify. apply heapify_loop.
  - pose proof (Nat.div_mod_eq (length a) 2%nat). lia.
  - intros k c Hk Hc x y Hx Hy. apply lookup_lt_Some in Hy.
    pose proof (Nat.div_mod_eq (length a) 2%nat) as Hd.
    pose proof (Nat.mod_upper_bound (length a) 2%nat ltac:(lia)) as Hm.
    destruct Hc; lia.
Qed.

(** The first value of a heap is not less than any other. *)
Lemma heap_root_max (h : list T) (root : T) :
  heap_from 1 h -> h !! 0%nat = Some root ->
  forall x, x ∈ h -> lt root x = false.
Proof.
  intros Hheap Hroot.
  assert (G : forall n k x, (k <= n)%nat -> (1 <= k)%nat ->
                            h !! (k - 1)%nat = Some x -> lt root x = false).
  { induction n as [|n IH]; intros k x Hkn Hk Hx; [lia|].
    destruct (Nat.eq_dec k 1%nat) as [->|Hk1].
    - simpl in Hx. rewrite Hroot in Hx. injection Hx as <-. apply lt_irreflexive.
    - pose proof (Nat.div_mod_eq k 2%nat) as Hd.
      pose proof (Nat.mod_upper_bound k 2%nat ltac:(lia)) as Hm.
      assert (Hq : (1 <= k / 2 < k)%nat) by lia.
      destruct (h !! (k / 2 - 1)%nat) as [z|] eqn:Hz.
      2:{ apply lookup_ge_None in Hz. apply lookup_lt_Some in Hx. lia. }
      assert (Hc : child k (k / 2)) by (unfold child; lia).
      pose proof (Hheap (k / 2)%nat k ltac:(lia) Hc z x Hz Hx) as Hzx.
      pose proof (IH (k / 2)%nat z ltac:(lia) ltac:(lia) Hz) as Hrz.
      exact (le_trans x z root Hzx Hrz). }
  intros x Hx. apply list_elem_of_lookup in Hx as [p Hp].
  apply (G (S p) (S p) x); [lia|lia|].
  simpl. replace (p - 0)%nat with p by lia. exact Hp.
Qed.

Lemma extract_max_spec (fuel : nat) :
  forall h s : list T,
    (length h <= fuel)%nat -> heap_from 1 h ->
    StronglySorted ascends s ->
    (forall x y, x ∈ h -> y ∈ s -> lt y x = false) ->
    Permutation (extract_max fuel h s) (h ++ s)
    /\ StronglySorted ascends (extract_max fuel h s).
Proof.
  induction fuel as [|fuel IH]; intros h s Hfuel Hheap Hs Hcross.
  - destruct h; [|simpl in Hfuel; lia]. simpl. split; [reflexivity|exact Hs].
  - assert (Hshort : (length h <= 1)%nat ->
                     Permutation (h ++ s) (h ++ s)
                     /\ StronglySorted ascends (h ++ s)).
    { intros Hlen. split; [reflexivity|].
      destruct h as [|x [|? ?]]; [exact Hs| |simpl in Hlen; lia].
      simpl. constructor; [exact Hs|].
      apply Forall_forall. intros y Hy. apply Hcross; [apply list_elem_of_here|exact Hy]. }
    destruct h as [|root [|x2 h2]]; [apply Hshort; simpl; lia..|].
    cbn [extract_max].
    set (h := root :: x2 :: h2) in *.
    assert (Hne : h <> []) by discriminate.
    set (tmp := List.last h root). set (h' := removelast h).
    assert (Hh : h = h' ++ [tmp]) by (apply (app_removelast_last root), Hne).
    clearbody tmp h'.
    assert (Hlen' : (length h = length h' + 1)%nat).
    { rewrite Hh at 1. rewrite length_app. reflexivity. }
    assert (Hlh : length h = S (S (length h2))) by reflexivity.
    assert (Hroot : h' !! 0%nat = Some root).
    { assert (H0 : h !! 0%nat = Some root) by reflexivity.
      rewrite Hh, lookup_app_l in H0; [exact H0|]. lia. }
    destruct (sift_spec 1 tmp (length h') 1 h') as (R1 & R2 & R3);
      [lia| | | | |].
    + apply lookup_lt_Some in Hroot. lia.
    + apply lookup_lt_Some in Hroot. lia.
    + intros k c Hk Hk1 Hc Hc1 x y Hx Hy.
      apply (Hheap k c Hk Hc x y); rewrite Hh, lookup_app_l;
        first [assumption | eapply lookup_lt_Some; eassumption].
    + intros k x Hk Hc _. destruct Hc; lia.
    + assert (Hperm : Permutation h (root :: sift (length h') tmp 1 h')).
      { rewrite R2, Hh. destruct h' as [|r h'']; [discriminate|].
        injection Hroot as ->. unfold set1. simpl. apply perm_skip.
        symmetry. apply Permutation_cons_append. }
      assert (Hmax : forall x, x ∈ h -> lt root x = false).
      { apply heap_root_max; [exact Hheap|reflexivity]. }
      destruct (IH (sift (length h') tmp 1 h') (root :: s)) as (Q1 & Q2).
      * rewrite R1. lia.
      * exact R3.
      * constructor; [exact Hs|]. apply Forall_forall. intros y Hy.
        apply Hcross; [apply list_elem_of_here|exact Hy].
      * intros x y Hx Hy.
        assert (Hxh : x ∈ h) by (rewrite Hperm; apply list_elem_of_further, Hx).
        apply elem_of_cons in Hy as [->|Hy]; [apply Hmax, Hxh|].
        apply Hcross; assumption.
      * split; [|exact Q2]. rewrite Q1, Hperm.
        symmetry. apply Permutation_middle.
Qed.

Lemma aheapsort_spec (a : list T) :
  Permutation (aheapsort a) a /\ StronglySorted ascends (aheapsort a).
Proof.
  unfold aheapsort. destruct (heapify_spec a) as (H1 & H2 & H3).
  destruct (extract_max_spec (length a) (heapify a) []) as (Q1 & Q2).
  - lia.
  - exact H3.
  - constructor.
  - intros x y _ Hy. apply elem_of_nil in Hy. contradiction.
  - split; [|exact Q2]. rewrite Q1, app_nil_r. exact H2.
Qed.

(** ** Quicksort *)
Lemma aquicksort_range_spec (fuel : nat) :
  forall (popped : bool) (cdepth : Z) (a : list T),
    Permutation (aquicksort_range fuel popped cdepth a) a
    /\ StronglySorted ascends (aquicksort_range fuel popped cdepth a).
Proof.
  assert (Hins : forall a, Permutation (insertion_sort a) a
                           /\ StronglySorted ascends (insertion_sort a)).
  { intros a. split; [apply insertion_sort_perm|apply insertion_sort_sorted]. }
  induction fuel as [|fuel IH]; intros popped cdepth a.
  - cbn [aquicksort_range].
    destruct (popped && (cdepth <? 0)); [apply aheapsort_spec|].
    destruct (length a <=? 17)%nat; apply Hins.
  - cbn [aquicksort_range].
    destruct (popped && (cdepth <? 0)); [apply aheapsort_spec|].
    destruct (length a <=? 17)%nat; [apply Hins|].
    destruct (partition a) as [[[lower p] upper]|] eqn:Hpart; [|apply Hins].
    destruct (partition_spec _ _ _ _ Hpart) as (Hp & Hl & Hu).
    set (b := (length lower <? length upper)%nat).
    destruct (IH (negb b) (cdepth - 1) lower) as (L1 & L2).
    destruct (IH b (cdepth - 1) upper) as (U1 & U2).
    split.
    + rewrite L1, U1. exact Hp.
    + apply ascends_app; [exact L2|exact U2| |].
      * rewrite L1. exact Hl.
      * rewrite U1. exact Hu.
Qed.

Lemma aquicksort_spec (a : list T) :
  Permutation (aquicksort a) a /\ StronglySorted ascends (aquicksort a).
Proof. apply aquicksort_range_spec. Qed.

(** The length of the range is fuel enough: the range is partitioned
    whenever it has more than seventeen elements. *)
Lemma aquicksort_range_fuel (f1 : nat) :
  forall (f2 : nat) (popped : bool) (cdepth : Z) (a : list T),
    (length a <= f1)%nat -> (length a <= f2)%nat ->
    aquicksort_range f1 popped cdepth a = aquicksort_range f2 popped cdepth a.
Proof.
  induction f1 as [|f1 IH]; intros f2 popped cdepth a H1 H2.
  - destruct a; [|simpl in H1; lia]. destruct f2; reflexivity.
  - destruct f2 as [|f2].
    { destruct a; [|simpl in H2; lia]. reflexivity. }
    cbn [aquicksort_range].
    destruct (popped && (cdepth <? 0)); [reflexivity|].
    destruct (length a <=? 17)%nat; [reflexivity|].
    destruct (partition a) as [[[lower p] upper]|] eqn:Hpart; [|reflexivity].
    apply partition_sizes in Hpart.
    f_equal; [|f_equal]; apply IH; lia.
Qed.

End NumpySortProofs.

(** *** Short ranges keep ties in order *)

Section NumpySortStable.
Context {T : Type} (lt : T -> T -> bool).
Hypothesis le_trans :
  forall x y z, lt y x = false -> lt z y = false -> lt z x = false.

Lemma ties_not_lt (v x y : T) :
  ties_with lt v x = true -> ties_with lt v y = true -> lt x y = false.
Proof.
  unfold ties_with. intros Hx Hy.
  apply andb_true_iff in Hx as [Hx _]. apply andb_true_iff in Hy as [_ Hy].
  apply negb_true_iff in Hx, Hy. exact (le_trans y v x Hy Hx).
Qed.

Lemma insert_back_filter (v x : T) (racc : list T) :
  List.filter (ties_with lt v) (insert_back lt x racc)
  = if ties_with lt v x then x :: List.filter (ties_with lt v) racc
    else List.filter (ties_with lt v) racc.
Proof.
  induction racc as [|y racc IH]; [reflexivity|].
  cbn [insert_back]. destruct (lt x y) eqn:E; [|reflexivity].
  cbn [List.filter]. rewrite IH.
  destruct (ties_with lt v x) eqn:Hx; [|reflexivity].
  destruct (ties_with lt v y) eqn:Hy; [|reflexivity].
  rewrite (ties_not_lt v x y Hx Hy) in E. discriminate.
Qed.

Lemma insertion_fold_filter (v : T) (a racc : list T) :
  List.filter (ties_with lt v)
    (fold_left (fun racc x => insert_back lt x racc) a racc)
  = rev (List.filter (ties_with lt v) a) ++ List.filter (ties_with lt v) racc.
Proof.
  revert racc. induction a as [|x a IH]; intros racc; [reflexivity|].
  cbn [fold_left List.filter]. rewrite IH, insert_back_filter.
  destruct (ties_with lt v x); [|reflexivity].
  cbn [rev]. rewrite <- app_assoc. reflexivity.
Qed.

(** Insertion sort leaves the entries that tie with one another in the
    order they had. *)
Lemma insertion_sort_stable (v : T) (a : list T) :
  List.filter (ties_with lt v) (insertion_sort lt a)
  = List.filter (ties_with lt v) a.
Proof.
  unfold insertion_sort.
  rewrite filter_rev, insertion_fold_filter. cbn [List.filter].
  rewrite app_nil_r. apply rev_involutive.
Qed.

(** A range of at most seventeen entries is sorted by insertion alone. *)
Lemma aquicksort_small (a : list T) :
  (length a <= 17)%nat -> aquicksort lt a = insertion_sort lt a.
Proof.
  intros Hlen. unfold aquicksort.
  assert (Hd : (2 * Z.log2 (Z.of_nat (length a)) <? 0) = false).
  { apply Z.ltb_ge. pose proof (Z.log2_nonneg (Z.of_nat (length a))). lia. }
  assert (Hs : (length a <=? 17)%nat = true) by (apply Nat.leb_le, Hlen).
  destruct (length a) as [|n] eqn:En; cbn [aquicksort_range];
    rewrite Hd, En, Hs; reflexivity.
Qed.

End NumpySortStable.

(** *** The order of [float64] values *)

Lemma SFcompare_rank (f1 f2 : spec_float) :
  f1 <> S754_nan -> f2 <> S754_nan ->
  SFcompare f1 f2 = Some (lex_compare (rank f1) (rank f2)).
Proof.
  intros H1 H2.
  destruct f1 as [s1|s1| |s1 m1 e1], f2 as [s2|s2| |s2 m2 e2];
    try contradiction; try (destruct s1; reflexivity);
    try (destruct s2; reflexivity); try (destruct s1, s2; reflexivity).
  destruct s1, s2; try reflexivity; cbn [SFcompare rank lex_compare].
  - rewrite Z.compare_opp, (Z.compare_antisym e1 e2).
    change (Z.neg m1 ?= Z.neg m2) with (CompOpp (Pos.compare_cont Eq m1 m2)).
    change (-1 ?= -1) with Eq. cbv iota.
    destruct (e1 ?= e2); simpl; try reflexivity.
    destruct (Pos.compare_cont Eq m1 m2); reflexivity.
  - change (Z.pos m1 ?= Z.pos m2) with (Pos.compare_cont Eq m1 m2).
    change (1 ?= 1) with Eq. cbv iota.
    destruct (e1 ?= e2); simpl; try reflexivity.
    destruct (Pos.compare_cont Eq m1 m2); reflexivity.
Qed.

Lemma sf_is_nan_true (f : spec_float) : sf_is_nan f = true -> f = S754_nan.
Proof. destruct f; simpl; congruence. Qed.

Lemma sf_is_nan_false (f : spec_float) : sf_is_nan f = false -> f <> S754_nan.
Proof. destruct f; simpl; congruence. Qed.

Lemma rank_nan_max (f : spec_float) :
  lex_compare (rank f) (rank S754_nan) = if sf_is_nan f then Eq else Lt.
Proof.
  destruct f as [s|s| |s m e]; try (destruct s); reflexivity.
Qed.

Lemma isna_rank (x : float64) : isna x = sf_is_nan (Prim2SF x).
Proof.
  unfold isna, PrimFloat.is_nan. rewrite FloatAxioms.eqb_spec. unfold SFeqb.
  destruct (sf_is_nan (Prim2SF x)) eqn:E.
  - apply sf_is_nan_true in E. rewrite E. reflexivity.
  - apply sf_is_nan_false in E.
    rewrite (SFcompare_rank _ _ E E), lex_compare_refl. reflexivity.
Qed.

Lemma DOUBLE_LT_rank (a b : float64) :
  DOUBLE_LT a b = match lex_compare (frank a) (frank b) with
                  | Lt => true
                  | _ => false
                  end.
Proof.
  unfold DOUBLE_LT, notna, frank. rewrite !isna_rank, FloatAxioms.ltb_spec.
  unfold SFltb.
  destruct (sf_is_nan (Prim2SF a)) eqn:Ea.
  - pose proof (sf_is_nan_true _ Ea) as Ea'. rewrite Ea'.
    cbn [SFcompare negb]. rewrite andb_false_r.
    rewrite (lex_compare_antisym (rank (Prim2SF b)) (rank S754_nan)).
    rewrite rank_nan_max.
    destruct (sf_is_nan (Prim2SF b)); reflexivity.
  - pose proof (sf_is_nan_false _ Ea) as Ea'. cbn [negb].
    rewrite andb_true_r.
    destruct (sf_is_nan (Prim2SF b)) eqn:Eb.
    + pose proof (sf_is_nan_true _ Eb) as Eb'. rewrite Eb'.
      rewrite rank_nan_max, Ea.
      destruct (Prim2SF a); reflexivity.
    + pose proof (sf_is_nan_false _ Eb) as Eb'. rewrite orb_false_r.
      rewrite (SFcompare_rank _ _ Ea' Eb'). reflexivity.
Qed.

Lemma entry_lt_asym {K} (x y : K * float64) :
  entry_lt x y = true -> entry_lt y x = false.
Proof.
  unfold entry_lt. rewrite !DOUBLE_LT_rank.
  rewrite (lex_compare_antisym (frank (snd x)) (frank (snd y))).
  destruct (lex_compare (frank (snd x)) (frank (snd y)));
    simpl; congruence.
Qed.

Lemma entry_le_trans {K} (x y z : K * float64) :
  entry_lt y x = false -> entry_lt z y = false -> entry_lt z x = false.
Proof.
  unfold entry_lt. rewrite !DOUBLE_LT_rank.
  destruct (lex_compare (frank (snd z)) (frank (snd x))) eqn:Hzx;
    try reflexivity.
  destruct (lex_compare (frank (snd y)) (frank (snd x))) eqn:Hyx;
    try discriminate; intros _.
  - apply lex_compare_eq in Hyx. rewrite Hyx, Hzx. discriminate.
  - destruct (lex_compare (frank (snd z)) (frank (snd y))) eqn:Hzy;
      try discriminate; intros _.
    + apply lex_compare_eq in Hzy. rewrite Hzy in Hzx. congruence.
    + rewrite lex_compare_antisym in Hzy, Hyx.
      destruct (lex_compare (frank (snd y)) (frank (snd z))) eqn:Hyz;
        try discriminate.
      destruct (lex_compare (frank (snd x)) (frank (snd y))) eqn:Hxy;
        try discriminate.
      pose proof (lex_compare_trans _ _ _ Hxy Hyz) as Hxz.
      rewrite lex_compare_antisym, Hxz in Hzx. discriminate.
Qed.

(** A value that is not less than a number may stand after it. *)
Lemma precedes_not_lt (a b : float64) :
  isna a = false -> DOUBLE_LT a b = false -> precedes a b = true.
Proof.
  intros Ha Hlt. unfold precedes.
  destruct (isna b) eqn:Hb; [reflexivity|]. simpl.
  rewrite isna_rank in Ha, Hb.
  apply sf_is_nan_false in Ha. apply sf_is_nan_false in Hb.
  rewrite DOUBLE_LT_rank in Hlt. unfold frank in Hlt.
  rewrite FloatAxioms.leb_spec. unfold SFleb.
  rewrite (SFcompare_rank _ _ Hb Ha), lex_compare_antisym.
  destruct (lex_compare (rank (Prim2SF a)) (rank (Prim2SF b)));
    simpl; congruence.
Qed.

(** ** [sort_values] sorts *)

Lemma filter_complement {A} (p : A -> bool) (l : list A) :
  Permutation (List.filter (fun x => negb (p x)) l ++ List.filter p l) l.
Proof.
  induction l as [|x l IH]; simpl; [reflexivity|].
  destruct (p x); simpl.
  - rewrite <- Permutation_middle. apply perm_skip, IH.
  - apply perm_skip, IH.
Qed.

Lemma StronglySorted_weaken {A} (R R' : A -> A -> Prop) (l : list A) :
  (forall x y, x ∈ l -> y ∈ l -> R x y -> R' x y) ->
  StronglySorted R l -> StronglySorted R' l.
Proof.
  intros Himp H. induction H as [|x l Hl IH Hx]; constructor.
  - apply IH. intros a b Ha Hb. apply Himp; apply list_elem_of_further;
      assumption.
  - apply Forall_forall. intros y Hy. rewrite Forall_forall in Hx.
    apply Himp; [apply list_elem_of_here|apply list_elem_of_further, Hy|].
    apply Hx, Hy.
Qed.

Lemma StronglySorted_app_last {A} (R : A -> A -> Prop) (l1 l2 : list A) :
  StronglySorted R l1 -> (forall a b, b ∈ l2 -> R a b) ->
  StronglySorted R (l1 ++ l2).
Proof.
  intros H1 H2. induction H1 as [|x l1 Hl IH Hx]; simpl.
  - induction l2 as [|b l2 IH]; constructor.
    + apply IH. intros a c Hc. apply H2, list_elem_of_further, Hc.
    + apply Forall_forall. intros c Hc.
      apply H2, list_elem_of_further, Hc.
  - constructor; [exact IH|]. apply Forall_app. split; [exact Hx|].
    apply Forall_forall. intros b Hb. apply H2, Hb.
Qed.

Lemma quicksort_conforms : sorts_descending quicksort.
Proof.
  intros K s. unfold quicksort, nargsort.
  set (non_nans := List.filter (fun e => notna (snd e)) s).
  set (nans := List.filter (fun e : K * float64 => isna (snd e)) s).
  destruct (aquicksort_spec entry_lt entry_lt_asym entry_le_trans
              (rev non_nans)) as [Hp Hs].
  assert (Hperm : Permutation (rev (aquicksort entry_lt (rev non_nans)))
                              non_nans).
  { rewrite <- Permutation_rev, Hp, <- Permutation_rev. reflexivity. }
  split.
  - rewrite Hperm. apply (filter_complement (fun e => isna (snd e)) s).
  - apply StronglySorted_Sorted, StronglySorted_app_last.
    + apply (StronglySorted_rev (ascends entry_lt)) in Hs.
      eapply StronglySorted_weaken; [|exact Hs].
      intros x y Hx _ Hxy. unfold ascends in Hxy. unfold descending.
      apply precedes_not_lt; [|exact Hxy].
      rewrite Hperm in Hx. unfold non_nans in Hx.
      apply list_elem_of_In, List.filter_In in Hx as [_ Hx].
      unfold notna in Hx. destruct (isna (snd x)); [discriminate|reflexivity].
    + intros a b Hb. unfold nans in Hb.
      apply list_elem_of_In, List.filter_In in Hb as [_ Hb].
      unfold descending, precedes. rewrite Hb. reflexivity.
Qed.

(** *** Ties among few groups *)

Lemma filter_before_1 {A} (c : A -> bool) (l : list A) :
  forall (i j : nat) (a b : A),
    (i < j)%nat -> l !! i = Some a -> l !! j = Some b ->
    c a = true -> c b = true ->
    exists i' j' : nat,
      (i' < j')%nat /\ List.filter c l !! i' = Some a
      /\ List.filter c l !! j' = Some b.
Proof.
  induction l as [|x l IH]; intros i j a b Hij Hi Hj Ha Hb;
    [discriminate|].
  destruct j as [|j]; [lia|]. simpl in Hj. destruct i as [|i].
  - injection Hi as ->. simpl. rewrite Ha.
    assert (Hin : b ∈ List.filter c l).
    { apply list_elem_of_In, List.filter_In. split; [|exact Hb].
      apply list_elem_of_In. eapply list_elem_of_lookup_2, Hj. }
    apply list_elem_of_lookup in Hin as [j' Hj'].
    exists 0%nat, (S j'). repeat split; [lia|exact Hj'].
  - simpl in Hi.
    destruct (IH i j a b ltac:(lia) Hi Hj Ha Hb) as (i' & j' & H1 & H2 & H3).
    simpl. destruct (c x).
    + exists (S i'), (S j'). repeat split; [lia|exact H2|exact H3].
    + exists i', j'. repeat split; assumption.
Qed.

Lemma filter_before_2 {A} (c : A -> bool) (l : list A) :
  forall (i' j' : nat) (a b : A),
    (i' < j')%nat -> List.filter c l !! i' = Some a ->
    List.filter c l !! j' = Some b ->
    exists i j : nat, (i < j)%nat /\ l !! i = Some a /\ l !! j = Some b.
Proof.
  induction l as [|x l IH]; intros i' j' a b Hij Hi Hj; [discriminate|].
  simpl in Hi, Hj. destruct (c x).
  - destruct j' as [|j']; [lia|]. simpl in Hj. destruct i' as [|i'].
    + injection Hi as ->.
      assert (Hin : b ∈ l).
      { apply list_elem_of_lookup_2 in Hj.
        apply list_elem_of_In, List.filter_In in Hj as [Hj _].
        apply list_elem_of_In, Hj. }
      apply list_elem_of_lookup in Hin as [j Hj0].
      exists 0%nat, (S j). repeat split; [lia|exact Hj0].
    + simpl in Hi.
      destruct (IH i' j' a b ltac:(lia) Hi Hj) as (i & j & H1 & H2 & H3).
      exists (S i), (S j). repeat split; [lia|exact H2|exact H3].
  - destruct (IH i' j' a b Hij Hi Hj) as (i & j & H1 & H2 & H3).
    exists (S i), (S j). repeat split; [lia|exact H2|exact H3].
Qed.

Lemma DOUBLE_LT_irrefl (x : float64) : DOUBLE_LT x x = false.
Proof. rewrite DOUBLE_LT_rank, lex_compare_refl. reflexivity. Qed.

Lemma same_class_refl {K} (a b : K * float64) :
  snd a = snd b -> same_class a a = true /\ same_class a b = true.
Proof.
  intros Hab. unfold same_class, ties_with, entry_lt. rewrite <- Hab.
  destruct (isna (snd a)); [split; reflexivity|].
  rewrite DOUBLE_LT_irrefl. split; reflexivity.
Qed.

Lemma same_class_notna {K} (a x : K * float64) :
  isna (snd a) = false -> ties_with entry_lt a x = true ->
  notna (snd x) = true.
Proof.
  intros Ha Hx. unfold ties_with, entry_lt, DOUBLE_LT in Hx.
  apply andb_true_iff in Hx as [_ Hx]. apply negb_true_iff in Hx.
  apply orb_false_iff in Hx as [_ Hx]. unfold notna in *.
  rewrite Ha in Hx. simpl in Hx. rewrite andb_true_r in Hx.
  rewrite Hx. reflexivity.
Qed.

Lemma filter_filter_imp {A} (p q : A -> bool) (l : list A) :
  (forall x, q x = true -> p x = true) ->
  List.filter q (List.filter p l) = List.filter q l.
Proof.
  intros Himp. rewrite filter_filter_andb. apply List.filter_ext.
  intros x. destruct (q x) eqn:Hq; [rewrite (Himp x Hq)|rewrite andb_false_r];
    reflexivity.
Qed.

Lemma filter_none {A} (q : A -> bool) (l : list A) :
  Forall (fun x => q x = false) l -> List.filter q l = [].
Proof.
  induction 1 as [|x l Hx _ IH]; simpl; [reflexivity|]. rewrite Hx. exact IH.
Qed.

(** With few groups the default sort leaves each class of tied entries as
    it was. *)
Lemma quicksort_small_class {K} (s : list (K * float64)) (a : K * float64) :
  few_groups s ->
  List.filter (same_class a) (quicksort K s) = List.filter (same_class a) s.
Proof.
  unfold few_groups, quicksort, nargsort. intros Hfew.
  set (non_nans := List.filter (fun e => notna (snd e)) s) in *.
  set (nans := List.filter (fun e : K * float64 => isna (snd e)) s).
  rewrite (aquicksort_small entry_lt) by (rewrite length_rev; exact Hfew).
  rewrite List.filter_app, filter_rev. unfold same_class.
  destruct (isna (snd a)) eqn:Ha.
  - rewrite (filter_none _ (insertion_sort entry_lt (rev non_nans))).
    + simpl. unfold nans. apply filter_idem.
    + apply Forall_forall. intros x Hx.
      rewrite (insertion_sort_perm entry_lt entry_lt_asym entry_le_trans),
        <- Permutation_rev in Hx.
      unfold non_nans in Hx.
      apply list_elem_of_In, List.filter_In in Hx as [_ Hx].
      unfold notna in Hx. destruct (isna (snd x)); [discriminate|reflexivity].
  - rewrite (insertion_sort_stable entry_lt entry_le_trans).
    rewrite filter_rev, rev_involutive.
    rewrite (filter_none _ nans).
    + rewrite app_nil_r. unfold non_nans. apply filter_filter_imp.
      intros x Hx. exact (same_class_notna a x Ha Hx).
    + apply Forall_forall. intros x Hx. unfold nans in Hx.
      apply list_elem_of_In, List.filter_In in Hx as [_ Hx].
      destruct (ties_with entry_lt a x) eqn:Ht; [|reflexivity].
      apply (same_class_notna a x Ha) in Ht. unfold notna in Ht.
      rewrite Hx in Ht. discriminate.
Qed.

Lemma quicksort_small_stable {K} (s : list (K * float64)) (n : nat) :
  ties_kept_when_few s (head n (quicksort K s)).
Proof.
  intros Hfew i j a b Hij Hi Hj Hab. unfold head in Hi, Hj.
  apply lookup_take_Some in Hi as [Hi _].
  apply lookup_take_Some in Hj as [Hj _].
  destruct (same_class_refl a b Hab) as [Ha Hb].
  destruct (filter_before_1 (same_class a) _ i j a b Hij Hi Hj Ha Hb)
    as (i' & j' & H1 & H2 & H3).
  rewrite (quicksort_small_class s a Hfew) in H2, H3.
  exact (filter_before_2 (same_class a) s i' j' a b H1 H2 H3).
Qed.



(** ** Counts and charts over groups *)

Lemma omap_id_map {A B} (g : A -> option B) (l : list A) :
  omap id (map g l) = omap g l.
Proof.
  induction l as [|x l IH]; simpl; [reflexivity|].
  destruct (g x); simpl; [f_equal|]; exact IH.
Qed.

Lemma nunique_map (col : Row -> option string) (df : DataFrame) :
  nunique (map col df) = length (remove_dups (omap col df)).
Proof. unfold nunique. rewrite omap_id_map. reflexivity. Qed.

Lemma groupby_sum_keys {K} `{EqDecision K} (ltb : K -> K -> bool)
    (key : Row -> option K) (df : DataFrame) :
  map fst (groupby_sum ltb key df) = sorted_keys ltb (omap key df).
Proof.
  unfold groupby_sum, groupby. rewrite !map_map. simpl. apply map_id.
Qed.

Lemma remove_dups_length_le (l : list string) :
  (length (remove_dups l) <= length l)%nat.
Proof.
  apply submseteq_length, NoDup_submseteq; [apply NoDup_remove_dups|].
  intros x. rewrite elem_of_remove_dups. auto.
Qed.

Lemma omap_length_le {A B} (g : A -> option B) (l : list A) :
  (length (omap g l) <= length l)%nat.
Proof.
  induction l as [|x l IH]; [simpl; lia|].
  change (omap g (x :: l))
    with (match g x with Some y => y :: omap g l | None => omap g l end).
  destruct (g x); simpl length; lia.
Qed.

Lemma remove_dups_subset_length (l k : list string) :
  (forall x, x ∈ l -> x ∈ k) ->
  (length (remove_dups l) <= length (remove_dups k))%nat.
Proof.
  intros Hsub. apply submseteq_length, NoDup_submseteq.
  - apply NoDup_remove_dups.
  - intros x. rewrite !elem_of_remove_dups. apply Hsub.
Qed.

(** Filtering never raises the number of unique orders, and a table has
    no more unique orders than rows. *)
Theorem filtering_shrinks_unique_orders (df : DataFrame) (f : FilterSpec) :
  (unique_orders (apply_filters df f) <= unique_orders df)%nat
  /\ (unique_orders df <= length df)%nat.
Proof.
  unfold unique_orders. rewrite !nunique_map. split.
  - apply remove_dups_subset_length. intros x.
    rewrite !list_elem_of_omap. intros (r & Hr & Hx). exists r.
    split; [|exact Hx]. rewrite apply_filters_spec in Hr.
    apply list_elem_of_In, List.filter_In in Hr as [Hr _].
    apply list_elem_of_In, Hr.
  - etrans; [apply remove_dups_length_le|apply omap_length_le].
Qed.

Lemma groupby_sum_row {K} `{EqDecision K} (ltb : K -> K -> bool)
    (key : Row -> option K) (df : DataFrame) (k : K) (v : float64) :
  (k, v) ∈ groupby_sum ltb key df -> exists r, r ∈ df /\ key r = Some k.
Proof.
  intros Hin. apply (groupby_has_key ltb key df k).
  unfold groupby_sum in Hin.
  apply list_elem_of_fmap in Hin as (g & Heq & Hg). injection Heq as -> _.
  apply list_elem_of_fmap. exists g. split; [reflexivity|exact Hg].
Qed.

(** The AOV chart has one point per unique order, and the average order
    value is NaN as soon as no row carries an order id, also on a table
    that has rows. *)
Theorem aov_points_are_orders (df : DataFrame) :
  length (plot_aov df) = unique_orders df
  /\ (forall o v, (o, v) ∈ plot_aov df ->
        exists r, r ∈ df /\ order_id r = Some o)
  /\ (unique_orders df = 0%nat -> avg_order_value df = NaN).
Proof.
  assert (Hlen : length (plot_aov df) = unique_orders df).
  { unfold plot_aov, unique_orders. rewrite nunique_map.
    rewrite <- (length_map fst), groupby_sum_keys.
    apply Permutation_length, NoDup_Permutation.
    - apply string_keys_NoDup.
    - apply NoDup_remove_dups.
    - intros x. rewrite elem_of_sorted_keys, elem_of_remove_dups.
      reflexivity. }
  split; [exact Hlen|]. split.
  - intros o v Hin. eapply groupby_sum_row. exact Hin.
  - intros H0. rewrite <- Hlen in H0. unfold plot_aov in H0.
    unfold avg_order_value.
    destruct (groupby_sum String.ltb order_id df); [|discriminate].
    vm_compute. reflexivity.
Qed.

Lemma filter_Permutation_bool {A} (p : A -> bool) (l k : list A) :
  Permutation l k -> Permutation (List.filter p l) (List.filter p k).
Proof.
  induction 1 as [|x l k _ IH|x y l|l k m _ IH1 _ IH2]; simpl.
  - constructor.
  - destruct (p x); [constructor|]; exact IH.
  - destruct (p x), (p y); try reflexivity. apply perm_swap.
  - etrans; eassumption.
Qed.

Lemma nunique_Permutation (l k : list (option string)) :
  Permutation l k -> nunique l = nunique k.
Proof.
  intros H. unfold nunique. apply Permutation_length, NoDup_Permutation;
    try apply NoDup_remove_dups.
  intros x. rewrite !elem_of_remove_dups.
  assert (Ho : Permutation (omap id l) (omap id k))
    by (apply omap_Permutation, H).
  split; intros Hx.
  - eapply elem_of_Permutation_proper; [symmetry; exact Ho|exact Hx].
  - eapply elem_of_Permutation_proper; [exact Ho|exact Hx].
Qed.

Lemma plot_dow_entries (df : DataFrame) :
  plot_dow df = map (fun d => (d, dow_entry d df)) DAYS.
Proof.
  unfold plot_dow, reindex. apply map_ext. intros d.
  rewrite groupby_nunique_get. reflexivity.
Qed.

Lemma dow_entry_Permutation (d : string) (df df' : DataFrame) :
  Permutation df df' -> dow_entry d df = dow_entry d df'.
Proof.
  intros H. unfold dow_entry, rows_on, group_rows.
  pose proof (filter_Permutation_bool
                (fun r => bool_decide (day_of_week r = Some d)) df df' H)
    as Hf.
  destruct (List.filter _ df) as [|r rs] eqn:E1;
    destruct (List.filter _ df') as [|r' rs'] eqn:E2.
  - reflexivity.
  - apply Permutation_nil_l in Hf. discriminate.
  - symmetry in Hf. apply Permutation_nil_l in Hf. discriminate.
  - f_equal. apply nunique_Permutation, Permutation_map, Hf.
Qed.

(** The unique-orders KPI and the seven day-of-week counts do not depend
    on the order of the rows of the table. *)
Theorem counts_ignore_row_order (df df' : DataFrame) :
  Permutation df df' ->
  unique_orders df = unique_orders df' /\ plot_dow df = plot_dow df'.
Proof.
  intros H. split.
  - apply nunique_Permutation, Permutation_map, H.
  - rewrite !plot_dow_entries. apply map_ext. intros d.
    f_equal. apply dow_entry_Permutation, H.
Qed.

Lemma counts_ignore_row_order_witness :
  Permutation no_sunday (rev no_sunday)
  /\ unique_orders no_sunday = unique_orders (rev no_sunday)
  /\ plot_dow no_sunday = plot_dow (rev no_sunday).
Proof.
  assert (H : Permutation no_sunday (rev no_sunday))
    by apply Permutation_rev.
  split; [exact H|].
  exact (counts_ignore_row_order no_sunday (rev no_sunday) H).
Defined.

(** ** Top-N tables: which rows they show *)

Lemma satisfying_row (df : DataFrame) (f : FilterSpec) (r : Row) :
  r ∈ apply_filters df f -> r ∈ df /\ Satisfies f r.
Proof.
  rewrite apply_filters_spec. intros Hr.
  apply list_elem_of_In, List.filter_In in Hr as [Hr Hs].
  split; [apply list_elem_of_In, Hr|apply satisfies_iff, Hs].
Qed.

Lemma NoDup_map_take {A B} (g : A -> B) (n : nat) (l : list A) :
  NoDup (map g l) -> NoDup (map g (take n l)).
Proof.
  intros H. rewrite <- List.firstn_map.
  exact (sublist_NoDup _ _ H (sublist_take (map g l) n)).
Qed.

Lemma head_keys_from_rows {K} `{EqDecision K} (kind : Sorter) (n : nat)
    (ltb : K -> K -> bool) (key : Row -> option K) (df : DataFrame)
    (f : FilterSpec) :
  sorts_descending kind ->
  NoDup (sorted_keys ltb (omap key (apply_filters df f))) ->
  keys_from_rows key df f
    (head n (sort_values_desc kind
               (groupby_sum ltb key (apply_filters df f)))).
Proof.
  intros Hkind Hnd. unfold head, sort_values_desc.
  destruct (Hkind K (groupby_sum ltb key (apply_filters df f)))
    as [Hperm _].
  split.
  - apply NoDup_map_take.
    apply (NoDup_Permutation_proper _ _ (Permutation_map fst Hperm)).
    rewrite groupby_sum_keys. exact Hnd.
  - intros k v Hin. apply elem_of_take in Hin as (i & Hi & _).
    apply list_elem_of_lookup_2 in Hi.
    apply (elem_of_Permutation_proper _ _ _ Hperm) in Hi.
    apply groupby_sum_row in Hi as (r & Hr & Hkey).
    apply satisfying_row in Hr as [Hr Hs]. exists r. auto.
Qed.

(** Whatever the sort, a Top-N table of the filtered rows shows each key
    at most once, and every key it shows is the key of a row of the loaded
    table that satisfies the filter. *)
Theorem top_n_keys_from_rows (kind : Sorter) (df : DataFrame)
    (f : FilterSpec) :
  sorts_descending kind ->
  keys_from_rows city df f (plot_top_cities kind (apply_filters df f))
  /\ keys_from_rows city_zone df f
       (plot_top_city_zones kind (apply_filters df f))
  /\ keys_from_rows department df f
       (plot_department_sales kind (apply_filters df f))
  /\ keys_from_rows category df f
       (plot_category_sales kind (apply_filters df f))
  /\ keys_from_rows sku_key df f (top_skus kind (apply_filters df f)).
Proof.
  intros Hkind.
  repeat split; try (apply head_keys_from_rows;
                     [exact Hkind|apply string_keys_NoDup]);
    apply head_keys_from_rows; solve [exact Hkind|apply sku_keys_NoDup].
Qed.

Lemma top_n_keys_from_rows_witness :
  sorts_descending stable_sort
  /\ keys_from_rows city two_cities (only_department ALL)
       (plot_top_cities stable_sort
          (apply_filters two_cities (only_department ALL))).
Proof.
  split; [exact stable_sort_conforms|].
  exact (proj1 (top_n_keys_from_rows stable_sort two_cities
                  (only_department ALL) stable_sort_conforms)).
Defined.

Lemma head_complete {K} (kind : Sorter) (n : nat)
    (groups : list (K * float64)) :
  sorts_descending kind ->
  top_n_complete n groups (head n (sort_values_desc kind groups)).
Proof.
  intros Hkind. unfold head, sort_values_desc.
  destruct (Hkind K groups) as [Hperm _].
  pose proof (Permutation_length Hperm) as Hlen. split.
  - rewrite length_take, Hlen. reflexivity.
  - intros Hfew. rewrite take_ge by lia. exact Hperm.
Qed.

(** Whatever the sort, a Top-N table has min(N, number of groups) rows,
    and with at most N groups it shows every group: nothing is cut off
    from a chart of ten cities or fewer. *)
Theorem top_n_shows_all_when_few (kind : Sorter) (df : DataFrame) :
  sorts_descending kind ->
  top_n_complete 10 (groupby_sum String.ltb city df) (plot_top_cities kind df)
  /\ top_n_complete 10 (groupby_sum String.ltb city_zone df)
       (plot_top_city_zones kind df)
  /\ top_n_complete 10 (groupby_sum String.ltb department df)
       (plot_department_sales kind df)
  /\ top_n_complete 10 (groupby_sum String.ltb category df)
       (plot_category_sales kind df)
  /\ top_n_complete 50 (groupby_sum ltb3 sku_key df) (top_skus kind df).
Proof.
  intros Hkind. repeat split; apply head_complete; exact Hkind.
Qed.

Lemma top_n_shows_all_when_few_witness :
  sorts_descending reversing_sort
  /\ top_n_complete 10 (groupby_sum String.ltb city two_cities)
       (plot_top_cities reversing_sort two_cities).
Proof.
  split; [exact reversing_sort_conforms|].
  exact (proj1 (top_n_shows_all_when_few reversing_sort two_cities
                  reversing_sort_conforms)).
Defined.

(** ** The loader: what it returns, and which days it derives *)

Lemma fragment_readers_conforming : conforming fragment_readers.
Proof.
  split.
  - intros col dts H. simpl in H. apply length_mapM in H. symmetry. exact H.
  - intros col. simpl. apply length_map.
Qed.

(** Whenever the loader returns a table, it has one row per data line; in
    each row a value or a quantity is the number read from its cell, or a
    null when the cell is empty or is not a number; the day and the hour
    are those of the row's timestamp; the cells of the other columns are
    the ones of the file.  The timestamps are the ones [read_csv] read
    from the column, the months the ones the coercing conversion gave. *)
Theorem load_data_coerces (R : Readers) (file : CsvFile) (df : DataFrame) :
  conforming R ->
  load_data R file = Ok df ->
  Forall2 (loaded R) (csv_lines file) df
  /\ read_datetimes R (map csv_order_datetime (csv_lines file))
     = Some (map order_datetime df)
  /\ map order_month_dt df
     = to_datetime_coerce R (map csv_order_month (csv_lines file)).
Proof.
  intros [Hd Hm] Hload.
  destruct (load_data_Ok R file df Hload) as (dts & Hdts & ->).
  apply parse_dates_Some in Hdts as [_ Hdts].
  destruct (zip_with_loaded R (csv_lines file) dts
              (to_datetime_coerce R (map csv_order_month (csv_lines file))))
    as (H1 & H2 & H3).
  - rewrite (Hd _ _ Hdts). apply length_map.
  - rewrite Hm. apply length_map.
  - split; [exact H1|]. split; [|exact H3].
    rewrite H2. exact Hdts.
Qed.

Lemma load_data_coerces_witness :
  exists df,
    load_data fragment_readers malformed_numbers = Ok df
    /\ Forall2 (loaded fragment_readers) (csv_lines malformed_numbers) df
    /\ map (fun r => isna (line_value_aed r)) df = [false; true]
    /\ map (fun r => isna (quantity r)) df = [false; true]
    /\ map day_of_week df = [Some "Monday"; Some "Saturday"].
Proof.
  eexists. split; [vm_compute; reflexivity|].
  split; [|repeat split; vm_compute; reflexivity].
  eapply (load_data_coerces fragment_readers malformed_numbers);
    [apply fragment_readers_conforming|vm_compute; reflexivity].
Defined.

(** The names the library gives the weekdays are the labels of the chart. *)
Lemma day_name_in_DAYS (t : Timestamp) : day_name t ∈ DAYS.
Proof.
  unfold day_name, DAYS.
  repeat case_match;
    repeat first [apply list_elem_of_here | apply list_elem_of_further].
Qed.

Lemma loaded_row_day (R : Readers) (lines : list CsvRow) :
  forall (cells : list (option Timestamp * option Timestamp)) (r : Row),
    r ∈ zip_with (fun c cs => load_row R c (fst cs) (snd cs)) lines cells ->
    exists dt, day_of_week r = day_name <$> dt.
Proof.
  induction lines as [|c lines IH]; intros [|cs cells] r Hr; simpl in Hr;
    try (apply elem_of_nil in Hr; contradiction).
  apply elem_of_cons in Hr as [->|Hr].
  - exists (fst cs). reflexivity.
  - exact (IH cells r Hr).
Qed.

(** Every day of week the loader writes is one of the seven labels the
    day-of-week chart reindexes by, so the count of every group of a
    loaded table is charted: no order is dropped by the reindex. *)
Theorem loaded_days_are_charted (R : Readers) (file : CsvFile)
    (df : DataFrame) :
  load_data R file = Ok df ->
  Forall (fun r => forall d, day_of_week r = Some d -> d ∈ DAYS) df
  /\ (forall d n,
        (d, n) ∈ groupby_nunique String.ltb day_of_week df ->
        (d, Some n) ∈ plot_dow df).
Proof.
  intros Hload.
  assert (Hdays : Forall (fun r => forall d, day_of_week r = Some d ->
                                             d ∈ DAYS) df).
  { destruct (load_data_Ok R file df Hload) as (dts & _ & ->).
    apply Forall_forall. intros r Hr d Hd.
    destruct (loaded_row_day R _ _ r Hr) as [dt Hdt].
    rewrite Hdt in Hd. destruct dt as [t|]; simpl in Hd; [|discriminate].
    injection Hd as <-. apply day_name_in_DAYS. }
  split; [exact Hdays|]. intros d n Hin.
  unfold groupby_nunique in Hin.
  apply list_elem_of_fmap in Hin as (g & Heq & Hg).
  injection Heq as Hd Hn.
  assert (Hk : d ∈ map fst (groupby String.ltb day_of_week df)).
  { apply list_elem_of_fmap. exists g. split; [exact Hd|exact Hg]. }
  unfold groupby in Hg. apply list_elem_of_fmap in Hg as (k & -> & _).
  simpl in Hd, Hn. subst d n.
  apply groupby_has_key in Hk as (r & Hr & Hday).
  rewrite plot_dow_entries. apply list_elem_of_fmap. exists k. split.
  - f_equal. unfold dow_entry, rows_on.
    destruct (group_rows day_of_week k df) eqn:Hrows; [|reflexivity].
    apply group_rows_nil in Hrows. exfalso. apply Hrows.
    apply list_elem_of_omap. eauto.
  - rewrite Forall_forall in Hdays. exact (Hdays r Hr k Hday).
Qed.

Lemma loaded_days_are_charted_witness :
  exists df,
    load_data fragment_readers malformed_numbers = Ok df
    /\ Forall (fun r => forall d, day_of_week r = Some d -> d ∈ DAYS) df
    /\ (forall d n,
          (d, n) ∈ groupby_nunique String.ltb day_of_week df ->
          (d, Some n) ∈ plot_dow df).
Proof.
  eexists. split; [vm_compute; reflexivity|].
  apply (loaded_days_are_charted fragment_readers malformed_numbers).
  vm_compute. reflexivity.
Defined.


(** ** The other charts and the chart picker *)

(** The monthly trend has one point per month that some row parses to,
    the months strictly ascending, each with the compensated sum of the
    line values of its rows; a row whose month did not parse is in no
    point. *)
Theorem monthly_trend_ascending (df : DataFrame) :
  StronglySorted (fun a b => ts_ltb a b = true)
    (map fst (plot_monthly_trend df))
  /\ (forall m, m ∈ map fst (plot_monthly_trend df) <->
                exists r, r ∈ df /\ order_month_dt r = Some m)
  /\ (forall m v, (m, v) ∈ plot_monthly_trend df ->
        v = group_sum float64_arith
              (map line_value_aed (group_rows order_month_dt m df))).
Proof.
  assert (Hs : StronglySorted (fun a b => ts_ltb a b = true)
                 (map fst (groupby_sum ts_ltb order_month_dt df))).
  { rewrite groupby_sum_keys.
    apply sorted_keys_strict; [exact ts_ltb_connex|exact ts_ltb_trans]. }
  assert (E : plot_monthly_trend df
              = groupby_sum ts_ltb order_month_dt df).
  { unfold plot_monthly_trend.
    apply sort_index_sorted; [exact ts_ltb_trans|exact ts_ltb_irrefl|].
    exact Hs. }
  rewrite E. split; [exact Hs|]. split.
  - intros m. rewrite groupby_sum_keys, elem_of_sorted_keys.
    apply list_elem_of_omap.
  - intros m v. apply groupby_sum_value.
Qed.

(** The channel chart shows each channel some row carries, once, and a
    channel all of whose line values are null is shown with the sum 0. *)
Theorem channel_ratio_shows_every_channel (df : DataFrame) :
  NoDup (map fst (plot_channel_ratio df))
  /\ (forall c, c ∈ map fst (plot_channel_ratio df) <->
                exists r, r ∈ df /\ channel r = Some c)
  /\ (forall c v, (c, v) ∈ plot_channel_ratio df ->
        Forall (fun r => channel r = Some c ->
                         isna (line_value_aed r) = true) df ->
        v = 0%float).
Proof.
  unfold plot_channel_ratio. rewrite groupby_sum_keys. split; [|split].
  - apply string_keys_NoDup.
  - intros c. rewrite elem_of_sorted_keys. apply list_elem_of_omap.
  - intros c v Hin Hnull. rewrite (groupby_sum_value _ _ _ _ _ Hin).
    apply group_sum_all_null. apply Forall_forall. intros x Hx.
    apply list_elem_of_fmap in Hx as (r & -> & Hr).
    unfold group_rows in Hr.
    apply list_elem_of_In, List.filter_In in Hr as [Hr Hc].
    apply bool_decide_eq_true_1 in Hc. rewrite Forall_forall in Hnull.
    apply Hnull; [apply list_elem_of_In, Hr|exact Hc].
Qed.

(** The chart picker and the dispatch agree: a label draws a chart
    exactly when it is one of the nine the picker offers, the chart is
    the one of that label, and the nine labels are distinct. *)
Theorem every_choice_has_a_chart (kind : Sorter) (graph_choice : string)
    (df : DataFrame) :
  (graph_choice ∈ GRAPH_CHOICES <->
   is_Some (show_visualization kind graph_choice df))
  /\ (forall c, show_visualization kind graph_choice df = Some c ->
                chart_label c = graph_choice)
  /\ NoDup GRAPH_CHOICES.
Proof.
  split; [|split].
  - split.
    + unfold GRAPH_CHOICES. rewrite !elem_of_cons, elem_of_nil.
      intros H. decompose [or] H; subst; try contradiction;
        eexists; reflexivity.
    + unfold show_visualization, GRAPH_CHOICES.
      repeat match goal with
             | |- context [String.eqb graph_choice ?s] =>
                 destruct (String.eqb_spec graph_choice s) as [->|?];
                 [intros _;
                  repeat first [apply list_elem_of_here
                               | apply list_elem_of_further]|]
             end.
      intros [c Hc]. discriminate Hc.
  - unfold show_visualization. intros c.
    repeat match goal with
           | |- context [String.eqb graph_choice ?s] =>
               destruct (String.eqb_spec graph_choice s) as [->|?];
               [intros [= <-]; reflexivity|]
           end.
    intros Hc. discriminate Hc.
  - unfold GRAPH_CHOICES. apply NoDup_ListNoDup.
    repeat (constructor; [simpl; intuition discriminate|]). constructor.
Qed.
